(** * In-memory codebase search: a shallow embedding of [memory_grep.py]

    The development models the class [InMemoryCodebase]: the file
    classifier, the loading walk that fills the [files] dictionary, the
    line scanner [grep] and its textual rendering [grep_formatted].

    Data representation
    - a Python [str] is a list of Unicode code points ([pystr]);
    - a Python [bytes] value is a list of 8-bit characters ([bytes]);
    - a Python [int] is a [Z];
    - the insertion-ordered [dict] [self.files] is an association list
      whose keys are pairwise distinct;
    - [print] appends a line to an explicit standard-output log, or
      raises when the line cannot be encoded for the standard output;
    - a method is a function from the world to an outcome (a value
      returned or an exception raised) and a new world.

    The pieces of the Python runtime that the program calls but does not
    define (the [re] engine, [os.path.relpath], the non-ASCII part of
    [str.lower], the encoding of the standard output) are the fields of
    the class [PyRuntime]. *)

From Stdlib Require Import List Bool Arith NArith ZArith Lia.
From Stdlib Require Import Ascii String DecimalString Sorted.
Import ListNotations.

Set Implicit Arguments.
Set Warnings "-register-all".

(** ** Python values *)

Definition pystr := list N.
Definition bytes := list ascii.

Definition of_string (s : string) : pystr :=
  map N_of_ascii (list_ascii_of_string s).

Definition bytes_of_string (s : string) : bytes := list_ascii_of_string s.

Fixpoint pystr_eqb (a b : pystr) : bool :=
  match a, b with
  | [], [] => true
  | x :: a', y :: b' => N.eqb x y && pystr_eqb a' b'
  | _, _ => false
  end.

(** [x in s] for a set literal of strings. *)
Definition str_in (x : pystr) (s : list pystr) : bool :=
  existsb (pystr_eqb x) s.

Definition LF : N := 10.
Definition CR : N := 13.
Definition DOT : N := 46.
Definition SLASH : N := 47.
Definition COLON : N := 58.

Definition byte_LF : ascii := ascii_of_N 10.
Definition is_LF (b : ascii) : bool := Ascii.eqb b byte_LF.

(** [seq.split(sep)] for a one-element separator: the pieces between the
    separators, an empty input giving one empty piece. *)
Fixpoint split_on (A : Type) (is_sep : A -> bool) (l : list A)
  : list (list A) :=
  match l with
  | [] => [[]]
  | x :: t =>
      if is_sep x then [] :: split_on is_sep t
      else match split_on is_sep t with
           | [] => [[x]]
           | h :: r => (x :: h) :: r
           end
  end.

(** [sep.join(parts)] *)
Fixpoint join (A : Type) (sep : list A) (parts : list (list A)) : list A :=
  match parts with
  | [] => []
  | [p] => p
  | p :: rest => p ++ sep ++ join sep rest
  end.

Fixpoint startswith (p s : pystr) : bool :=
  match p, s with
  | [], _ => true
  | x :: p', y :: s' => N.eqb x y && startswith p' s'
  | _ :: _, [] => false
  end.

Definition endswith (p s : pystr) : bool := startswith (rev p) (rev s).

(** [p in s] for strings: [p] occurs as a contiguous block of [s]. *)
Fixpoint contains (p s : pystr) : bool :=
  startswith p s ||
  match s with
  | [] => false
  | _ :: s' => contains p s'
  end.

(** [s.rfind(c)] for a one-character [c]: the last index, or [-1]. *)
Fixpoint rfind_go (c : N) (s : pystr) (i : Z) (acc : Z) : Z :=
  match s with
  | [] => acc
  | x :: t => rfind_go c t (i + 1) (if N.eqb x c then i else acc)
  end.

Definition rfind (c : N) (s : pystr) : Z := rfind_go c s 0 (-1).

Definition len (A : Type) (l : list A) : Z := Z.of_nat (List.length l).

(** [str(n)] for an [int]. *)
Definition str_of_int (n : Z) : pystr :=
  of_string (NilZero.string_of_int (Z.to_int n)).

(** ** The runtime interface *)

(** Outcome of [re.compile(pattern.encode("utf-8"), flags)]: a compiled
    pattern, [re.error] with its message, or any other exception with
    its message ([OverflowError] for a repetition count that is too
    large, [UnicodeEncodeError] from the encoding). *)
Inductive compiled (R : Type) : Type :=
| Compiled (r : R)
| ReError (msg : pystr)
| CompileRaised (msg : pystr).
Arguments ReError {R} msg.
Arguments CompileRaised {R} msg.

Class PyRuntime : Type := {
  (** [str.lower] on a code point outside ASCII, given the text before
      and after it (the mapping of capital sigma looks at both). *)
  lower_ext : pystr -> N -> pystr -> pystr;
  (** [os.path.relpath(path, start)]; [None] stands for [ValueError]. *)
  relpath : pystr -> pystr -> option pystr;
  (** compiled pattern objects *)
  regex : Type;
  (** [re.compile(pat, flags)] on a bytes pattern; the boolean is
      [case_sensitive], [flags] being [0] or [re.IGNORECASE]. *)
  re_compile : bytes -> bool -> compiled regex;
  (** [regex.search(line)] used as a truth value. *)
  re_search : regex -> bytes -> bool;
  (** Writing a line to [sys.stdout]: [None] when the text can be
      encoded for it, else the message of the [UnicodeEncodeError]
      that [print] raises. *)
  stdout_error : pystr -> option pystr
}.

(** ** [str.lower] *)

Definition ascii_lower (c : N) : N :=
  if (65 <=? c)%N && (c <=? 90)%N then (c + 32)%N else c.

Fixpoint lower_go `{PyRuntime} (before_rev s : pystr) : pystr :=
  match s with
  | [] => []
  | c :: t =>
      (if (c <? 128)%N then [ascii_lower c]
       else lower_ext (rev before_rev) c t)
      ++ lower_go (c :: before_rev) t
  end.

Definition str_lower `{PyRuntime} (s : pystr) : pystr := lower_go [] s.

(** ** Paths: [os.path.join] and [pathlib.Path] *)

(** [os.path.join(a, b)] on POSIX. *)
Definition path_join (a b : pystr) : pystr :=
  if startswith [SLASH] b then b
  else if pystr_eqb a [] || endswith [SLASH] a then a ++ b
  else a ++ [SLASH] ++ b.

(** The parts [pathlib] keeps: empty and [.] components are dropped. *)
Definition path_parts (p : pystr) : list pystr :=
  filter (fun x => negb (pystr_eqb x []) && negb (pystr_eqb x [DOT]))
         (split_on (N.eqb SLASH) p).

(** [Path(p).name] *)
Definition path_name (p : pystr) : pystr := last (path_parts p) [].

(** [Path(p).suffix]: from the last dot of the name on, unless that dot
    is the first or the last character of the name. *)
Definition path_suffix (p : pystr) : pystr :=
  let name := path_name p in
  let i := rfind DOT name in
  if (0 <? i)%Z && (i <? len name - 1)%Z then skipn (Z.to_nat i) name
  else [].

(** ** The file classifier *)

Definition text_extensions : list pystr :=
  map of_string
    [".py"; ".js"; ".ts"; ".jsx"; ".tsx"; ".java"; ".c"; ".cpp"; ".h";
     ".hpp"; ".go"; ".rs"; ".rb"; ".php"; ".cs"; ".swift"; ".kt";
     ".scala"; ".r"; ".html"; ".css"; ".scss"; ".sass"; ".less"; ".json";
     ".yaml"; ".yml"; ".md"; ".txt"; ".xml"; ".sql"; ".sh"; ".bash";
     ".zsh"; ".fish"; ".toml"; ".ini"; ".conf"; ".config"; ".env";
     ".proto"; ".graphql"; ".vue"; ".svelte"; ".elm"; ".ex"; ".exs";
     ".erl"; ".hrl"; ".clj"; ".lua"; ".pl"; ".pm"; ".raku"; ".vim";
     ".el"; ".lisp"; ".scm"; ".gradle"; ".properties"; ".dockerfile";
     ".makefile"; ".cmake"]%string.

Definition text_filenames : list pystr :=
  map of_string
    ["makefile"; "dockerfile"; "rakefile"; "gemfile"; "procfile";
     "readme"; "license"; "changelog"; "contributing"; "authors"]%string.

Definition _is_text_file `{PyRuntime} (filepath : pystr) : bool :=
  let ext := str_lower (path_suffix filepath) in
  if str_in ext text_extensions then true
  else
    let filename := str_lower (path_name filepath) in
    str_in filename text_filenames.

Definition skip_dirs : list pystr :=
  map of_string
    [".git"; ".svn"; ".hg"; ".bzr"; "node_modules"; "bower_components";
     "__pycache__"; ".pytest_cache"; ".mypy_cache"; "venv"; ".venv";
     "env"; ".env"; "virtualenv"; "target"; "build"; "dist"; "out";
     ".idea"; ".vscode"; ".vs"; "coverage"; ".coverage"; "htmlcov";
     ".next"; ".nuxt"; ".cache"; "vendor"]%string.

Definition _should_skip_directory (dirname : pystr) : bool :=
  str_in dirname skip_dirs.

(** ** Dictionaries *)

(** [d[k] = v] on an insertion-ordered dictionary: an existing key keeps
    its place, a new key goes to the end. *)
Fixpoint dict_set (V : Type) (k : pystr) (v : V) (d : list (pystr * V))
  : list (pystr * V) :=
  match d with
  | [] => [(k, v)]
  | (k', v') :: t =>
      if pystr_eqb k k' then (k', v) :: t else (k', v') :: dict_set k v t
  end.

Definition keys (V : Type) (d : list (pystr * V)) : list pystr :=
  map fst d.

(** ** The object, the world and the monad of methods *)

Record InMemoryCodebase : Type := {
  codebase_path : pystr;
  files : list (pystr * bytes);      (* filepath -> mapped content *)
  file_sizes : list (pystr * Z)      (* filepath -> size in bytes *)
}.

Record world : Type := {
  self : InMemoryCodebase;
  stdout : list pystr                (* printed lines, oldest first *)
}.

Inductive outcome (A : Type) : Type :=
| Return (a : A)
| Raise (msg : pystr).
Arguments Raise {A} msg.

Definition py (A : Type) : Type := world -> outcome A * world.

Definition ret (A : Type) (a : A) : py A := fun w => (Return a, w).

Definition raise (A : Type) (msg : pystr) : py A := fun w => (Raise msg, w).
Arguments raise {A} msg.

Definition bind (A B : Type) (m : py A) (k : A -> py B) : py B :=
  fun w =>
    match m w with
    | (Return a, w') => k a w'
    | (Raise e, w') => (Raise e, w')
    end.

(** [try: m except Exception as e: h e] *)
Definition try_except (A : Type) (m : py A) (h : pystr -> py A) : py A :=
  fun w =>
    match m w with
    | (Return a, w') => (Return a, w')
    | (Raise e, w') => h e w'
    end.

(** [print(line)]: the line is written, unless it cannot be encoded
    for the standard output, in which case [print] raises. *)
Definition print `{PyRuntime} (line : pystr) : py unit :=
  fun w =>
    match stdout_error line with
    | None => (Return tt, {| self := self w; stdout := stdout w ++ [line] |})
    | Some e => (Raise e, w)
    end.

Definition get_self : py InMemoryCodebase := fun w => (Return (self w), w).

Definition set_self (o : InMemoryCodebase) : py unit :=
  fun w => (Return tt, {| self := o; stdout := stdout w |}).

Declare Scope py_scope.
Delimit Scope py_scope with py.
Notation "x <- m ;; k" := (bind m (fun x => k))
  (at level 61, m at next level, right associativity) : py_scope.
Notation "m ;;; k" := (bind m (fun _ => k))
  (at level 61, right associativity) : py_scope.
Open Scope py_scope.

(** [for x in xs: body x] *)
Fixpoint for_each (A : Type) (xs : list A) (body : A -> py unit) : py unit :=
  match xs with
  | [] => ret tt
  | x :: rest => body x ;;; for_each rest body
  end.

(** ** The file system seen by the loading walk *)

(** What [os.path.getsize], [open] and [mmap.mmap] do on a file. *)
Inductive file_state : Type :=
| Regular (content : bytes)             (* size is the content's length *)
| StatError (msg : pystr)               (* [getsize] raises [OSError] *)
| MapError (size : Z) (msg : pystr).    (* [open] or [mmap] raises *)

(** A directory entry; the children of a directory are in the order in
    which the operating system lists them. *)
Inductive entry : Type :=
| EFile (name : pystr) (st : file_state)
| EDir (name : pystr) (children : list entry).

(** ** Loading *)

(** [_mmap_file(filepath)], [st] being the file found at [filepath]. *)
Definition _mmap_file (filepath : pystr) (st : file_state) : py unit :=
  match st with
  | StatError msg => raise msg
  | Regular content =>
      let size := len content in
      if (size =? 0)%Z then ret tt
      else
        o <- get_self ;;
        set_self {| codebase_path := codebase_path o;
                    files := dict_set filepath content (files o);
                    file_sizes := dict_set filepath size (file_sizes o) |}
  | MapError size msg =>
      if (size =? 0)%Z then ret tt
      else raise (of_string "Cannot mmap: " ++ msg)
  end.

(** The body of the loop over the [files] of one directory. *)
Definition load_file `{PyRuntime} (root : pystr) (e : entry) : py unit :=
  match e with
  | EDir _ _ => ret tt
  | EFile filename st =>
      let filepath := path_join root filename in
      if negb (_is_text_file filepath) then ret tt
      else
        try_except (_mmap_file filepath st)
          (fun e =>
             print (of_string "Warning: Skipping " ++ filepath
                    ++ of_string ": " ++ e))
  end.

(** [_load_codebase]: [os.walk] top-down over the directory [e] whose
    path is [root]; the files of a directory are handled before its
    sub-directories, and the skipped directories are not entered.
    Walking something that is not a directory yields nothing. *)
Fixpoint load_walk `{PyRuntime} (root : pystr) (e : entry) {struct e}
  : py unit :=
  match e with
  | EFile _ _ => ret tt
  | EDir _ children =>
      for_each children (load_file root) ;;;
      (fix subdirs (es : list entry) : py unit :=
         match es with
         | [] => ret tt
         | EFile _ _ :: rest => subdirs rest
         | (EDir dirname _ as d) :: rest =>
             (if _should_skip_directory dirname then ret tt
              else load_walk (path_join root dirname) d) ;;;
             subdirs rest
         end) children
  end.

(** [tree] is what the file system holds at [self.codebase_path]. *)
Definition _load_codebase `{PyRuntime} (tree : entry) : py unit :=
  o <- get_self ;;
  load_walk (codebase_path o) tree.

(** The object as [__init__] leaves it before the walk. *)
Definition new_world (path : pystr) : world :=
  {| self := {| codebase_path := path; files := []; file_sizes := [] |};
     stdout := [] |}.

(** The world when the walk over [tree] has ended: at its end, or at
    the [print] that raised. *)
Definition loaded `{PyRuntime} (path : pystr) (tree : entry) : world :=
  snd (_load_codebase tree (new_world path)).

(** ** UTF-8 *)

Open Scope N_scope.

(** U+FFFD, the replacement character. *)
Definition REPLACEMENT : N := 65533.

Definition is_continuation (b : N) : bool := (128 <=? b) && (b <=? 191).

(** [bytes.decode("utf-8", errors="replace")] on the byte values: every
    maximal ill-formed run of a sequence becomes one U+FFFD, and a
    sequence cut by the end of the input becomes one U+FFFD. *)
Fixpoint utf8_replace (s : list N) : pystr :=
  match s with
  | [] => []
  | ch :: s1 =>
      if ch <? 128 then ch :: utf8_replace s1
      else if ch <? 194 then REPLACEMENT :: utf8_replace s1
      else if ch <? 224 then
        match s1 with
        | [] => [REPLACEMENT]
        | ch2 :: s2 =>
            if is_continuation ch2
            then ((ch - 192) * 64 + (ch2 - 128)) :: utf8_replace s2
            else REPLACEMENT :: utf8_replace s1
        end
      else if ch <? 240 then
        match s1 with
        | [] => [REPLACEMENT]
        | ch2 :: s2 =>
            if negb (is_continuation ch2)
               || (if ch2 <? 160 then ch =? 224 else ch =? 237)
            then REPLACEMENT :: utf8_replace s1
            else
              match s2 with
              | [] => [REPLACEMENT]
              | ch3 :: s3 =>
                  if is_continuation ch3
                  then ((ch - 224) * 4096 + (ch2 - 128) * 64 + (ch3 - 128))
                       :: utf8_replace s3
                  else REPLACEMENT :: utf8_replace s2
              end
        end
      else if ch <? 245 then
        match s1 with
        | [] => [REPLACEMENT]
        | ch2 :: s2 =>
            if negb (is_continuation ch2)
               || (if ch2 <? 144 then ch =? 240 else ch =? 244)
            then REPLACEMENT :: utf8_replace s1
            else
              match s2 with
              | [] => [REPLACEMENT]
              | ch3 :: s3 =>
                  if negb (is_continuation ch3)
                  then REPLACEMENT :: utf8_replace s2
                  else
                    match s3 with
                    | [] => [REPLACEMENT]
                    | ch4 :: s4 =>
                        if is_continuation ch4
                        then ((ch - 240) * 262144 + (ch2 - 128) * 4096
                              + (ch3 - 128) * 64 + (ch4 - 128))
                             :: utf8_replace s4
                        else REPLACEMENT :: utf8_replace s3
                    end
              end
        end
      else REPLACEMENT :: utf8_replace s1
  end.

Definition decode_replace (b : bytes) : pystr :=
  utf8_replace (map N_of_ascii b).

(** The UTF-8 sequence of one code point that is not a surrogate. *)
Definition utf8_encode_cp (c : N) : list N :=
  if c <? 128 then [c]
  else if c <? 2048 then [192 + c / 64; 128 + c mod 64]
  else if c <? 65536 then
    [224 + c / 4096; 128 + (c / 64) mod 64; 128 + c mod 64]
  else
    [240 + c / 262144; 128 + (c / 4096) mod 64;
     128 + (c / 64) mod 64; 128 + c mod 64].

Definition is_surrogate (c : N) : bool := (55296 <=? c) && (c <=? 57343).

(** The number of surrogates at the head of a string. *)
Fixpoint surrogate_run (s : pystr) : nat :=
  match s with
  | c :: t => if is_surrogate c then S (surrogate_run t) else O
  | [] => O
  end.

(** The first surrogate of a string: its index, the code point, and
    the number of surrogates that follow it at once. *)
Fixpoint first_surrogate (s : pystr) (i : Z) : option (Z * N * nat) :=
  match s with
  | [] => None
  | c :: t =>
      if is_surrogate c then Some (i, c, surrogate_run t)
      else first_surrogate t (i + 1)%Z
  end.

Definition hex_digit (d : N) : N := if d <? 10 then 48 + d else 87 + d.

(** Four lower-case hexadecimal digits. *)
Definition hex4 (c : N) : pystr :=
  [hex_digit (c / 4096); hex_digit ((c / 256) mod 16);
   hex_digit ((c / 16) mod 16); hex_digit (c mod 16)].

(** The text of the [UnicodeEncodeError] for the surrogates found at
    index [i]. *)
Definition surrogates_not_allowed (i : Z) (c : N) (more : nat) : pystr :=
  match more with
  | O =>
      of_string "'utf-8' codec can't encode character '\u" ++ hex4 c
      ++ of_string "' in position " ++ str_of_int i
      ++ of_string ": surrogates not allowed"
  | S _ =>
      of_string "'utf-8' codec can't encode characters in position "
      ++ str_of_int i ++ of_string "-"
      ++ str_of_int (i + Z.of_nat more)%Z
      ++ of_string ": surrogates not allowed"
  end.

(** [s.encode("utf-8")]: the bytes of the string, or
    [UnicodeEncodeError] when it holds a surrogate. *)
Definition encode_utf8 (s : pystr) : outcome bytes :=
  match first_surrogate s 0 with
  | Some (i, c, more) => Raise (surrogates_not_allowed i c more)
  | None => Return (map ascii_of_N (flat_map utf8_encode_cp s))
  end.

Close Scope N_scope.

(** ** [str.rstrip] *)

Fixpoint dropwhile (A : Type) (f : A -> bool) (l : list A) : list A :=
  match l with
  | [] => []
  | x :: t => if f x then dropwhile f t else l
  end.

(** [s.rstrip(chars)]: every trailing character that belongs to [chars]
    is removed. *)
Definition rstrip (chars s : pystr) : pystr :=
  rev (dropwhile (fun c => existsb (N.eqb c) chars) (rev s)).

(** ** Searching *)

(** One result of [grep]: [(filepath, line_number, line_content)]. *)
Definition hit : Type := (pystr * Z * pystr)%type.

Definition hit_path (h : hit) : pystr := fst (fst h).
Definition hit_line (h : hit) : Z := snd (fst h).

(** [if path_filter and path_filter not in filepath] *)
Definition filtered_out (path_filter : option pystr) (filepath : pystr)
  : bool :=
  match path_filter with
  | None => false
  | Some f => negb (pystr_eqb f []) && negb (contains f filepath)
  end.

(** The loop over the enumerated lines of one file.  [line_num] is the
    number of the first line of [lines]; the loop is left as soon as the
    result list has [max_results] entries. *)
Fixpoint grep_lines `{PyRuntime} (r : regex) (filepath : pystr)
  (max_results : Z) (lines : list bytes) (line_num : Z)
  (results : list hit) : list hit :=
  match lines with
  | [] => results
  | line :: rest =>
      if re_search r line then
        let line_str :=
          rstrip [CR; LF] (decode_replace line) in
        let results := results ++ [(filepath, line_num, line_str)] in
        if (len results >=? max_results)%Z then results
        else grep_lines r filepath max_results rest (line_num + 1) results
      else grep_lines r filepath max_results rest (line_num + 1) results
  end.

(** The loop over [self.files.items()]. *)
Fixpoint grep_files `{PyRuntime} (r : regex) (path_filter : option pystr)
  (max_results : Z) (items : list (pystr * bytes)) (results : list hit)
  : list hit :=
  match items with
  | [] => results
  | (filepath, mmap_obj) :: rest =>
      if filtered_out path_filter filepath
      then grep_files r path_filter max_results rest results
      else if (len results >=? max_results)%Z then results
      else
        let content := mmap_obj in
        let lines := split_on is_LF content in
        grep_files r path_filter max_results rest
          (grep_lines r filepath max_results lines 1 results)
  end.

(** [re.compile(pattern.encode("utf-8"), flags)]: the error of the
    encoding, when it raises, is one of the exceptions that are not
    [re.error]. *)
Definition compile_pattern `{PyRuntime} (pattern : pystr)
  (case_sensitive : bool) : compiled regex :=
  match encode_utf8 pattern with
  | Raise e => CompileRaised e
  | Return b => re_compile b case_sensitive
  end.

(** [grep(pattern, path_filter, max_results, case_sensitive)].  Only
    [re.error] is caught around the compilation; any other exception
    leaves [grep], and so does one that [print] raises in the handler.
    Reading a live mapping and decoding with [errors="replace"] do not
    raise, so the two inner [except] clauses are never entered. *)
Definition grep `{PyRuntime} (pattern : pystr) (path_filter : option pystr)
  (max_results : Z) (case_sensitive : bool) : py (list hit) :=
  match compile_pattern pattern case_sensitive with
  | CompileRaised e => raise e
  | ReError e =>
      print (of_string "Invalid regex pattern '" ++ pattern
             ++ of_string "': " ++ e) ;;;
      ret []
  | Compiled r =>
      o <- get_self ;;
      ret (grep_files r path_filter max_results (files o) [])
  end.

(** The rendering of one result. *)
Definition format_hit `{PyRuntime} (root : pystr) (h : hit) : pystr :=
  let '(filepath, line_num, content) := h in
  let rel_path :=
    match relpath filepath root with
    | Some p => p
    | None => filepath
    end in
  rel_path ++ [COLON] ++ str_of_int line_num ++ [COLON] ++ content.

(** What [grep_formatted] makes of the list [grep] returned. *)
Definition format_results `{PyRuntime} (root pattern : pystr)
  (max_results : Z) (results : list hit) : pystr :=
  match results with
  | [] => of_string "No matches found for pattern: " ++ pattern
  | _ =>
      let output_lines := map (format_hit root) results in
      let summary :=
        [LF] ++ of_string "--- Found " ++ str_of_int (len results)
        ++ of_string " matches" in
      let summary :=
        if (len results =? max_results)%Z
        then summary ++ of_string " (limited to first "
             ++ str_of_int max_results ++ of_string ")"
        else summary in
      let summary := summary ++ of_string " ---" in
      join [LF] output_lines ++ summary
  end.

(** [grep_formatted(pattern, path_filter, max_results)]: [grep] is
    called with its default [case_sensitive=True]. *)
Definition grep_formatted `{PyRuntime} (pattern : pystr)
  (path_filter : option pystr) (max_results : Z) : py pystr :=
  results <- grep pattern path_filter max_results true ;;
  o <- get_self ;;
  ret (format_results (codebase_path o) pattern max_results results).

(** ** A concrete runtime

    [os.path.relpath] is the POSIX one for a given working directory.
    The [re] engine is Python's on the patterns built from literal
    bytes, [.], [|] and a backslash followed by a character that is not
    an ASCII letter or digit; such a pattern compiles unless it ends in a
    lone backslash.  Any other pattern is refused by this engine,
    [str.lower] changes ASCII letters only, and the standard output
    takes UTF-8 without surrogates. *)

Module MiniRe.

Inductive atom : Type :=
| Lit (b : N)        (* this byte *)
| Any.               (* [.]: any byte but a newline *)

Record t : Type := {
  branches : list (list atom);     (* the alternatives of [|] *)
  case_sensitive : bool
}.

Definition is_alnum (c : N) : bool :=
  ((48 <=? c) && (c <=? 57) || (65 <=? c) && (c <=? 90)
   || (97 <=? c) && (c <=? 122))%N.

(** [*+?{[()^$]: the special characters this engine does not take. *)
Definition unsupported (c : N) : bool :=
  existsb (N.eqb c) [42; 43; 63; 123; 91; 40; 41; 94; 36]%N.

Definition refused : pystr := of_string "pattern outside the fragment".

(** The parser: [cur] is the current alternative, reversed; [done]
    the finished ones, reversed; [pos] the index of the next byte. *)
Fixpoint parse (s : list N) (pos : Z) (cur : list atom)
  (done : list (list atom)) : compiled (list (list atom)) :=
  match s with
  | [] => Compiled (rev (rev cur :: done))
  | c :: s1 =>
      if (c =? 124)%N then parse s1 (pos + 1) [] (rev cur :: done)
      else if (c =? 46)%N then parse s1 (pos + 1) (Any :: cur) done
      else if (c =? 92)%N then
        match s1 with
        | [] =>
            ReError (of_string "bad escape (end of pattern) at position "
                     ++ str_of_int pos)
        | d :: s2 =>
            if is_alnum d then ReError refused
            else parse s2 (pos + 2) (Lit d :: cur) done
        end
      else if unsupported c then ReError refused
      else parse s1 (pos + 1) (Lit c :: cur) done
  end.

Definition compile (pat : bytes) (cs : bool) : compiled t :=
  match parse (map N_of_ascii pat) 0 [] [] with
  | Compiled bs => Compiled {| branches := bs; case_sensitive := cs |}
  | ReError e => ReError e
  | CompileRaised e => CompileRaised e
  end.

(** Does the pattern byte [b] accept the subject byte [c]? *)
Definition byte_match (cs : bool) (b c : N) : bool :=
  if cs then N.eqb b c else N.eqb (ascii_lower b) (ascii_lower c).

Fixpoint match_prefix (cs : bool) (atoms : list atom) (s : list N)
  : bool :=
  match atoms, s with
  | [], _ => true
  | Lit b :: atoms', c :: s' =>
      byte_match cs b c && match_prefix cs atoms' s'
  | Any :: atoms', c :: s' =>
      negb (N.eqb c 10) && match_prefix cs atoms' s'
  | _ :: _, [] => false
  end.

Definition match_here (r : t) (s : list N) : bool :=
  existsb (fun br => match_prefix (case_sensitive r) br s) (branches r).

Fixpoint search_from (r : t) (s : list N) : bool :=
  match_here r s ||
  match s with
  | [] => false
  | _ :: s' => search_from r s'
  end.

Definition search (r : t) (line : bytes) : bool :=
  search_from r (map N_of_ascii line).

End MiniRe.

Module Posix.

Definition DOTDOT : pystr := [DOT; DOT].

(** The components of [os.path.normpath] of an absolute path. *)
Fixpoint norm (comps : list pystr) (acc_rev : list pystr) : list pystr :=
  match comps with
  | [] => rev acc_rev
  | c :: rest =>
      if pystr_eqb c [] || pystr_eqb c [DOT] then norm rest acc_rev
      else if pystr_eqb c DOTDOT then norm rest (tl acc_rev)
      else norm rest (c :: acc_rev)
  end.

(** The components of [os.path.abspath(p)]. *)
Definition abs_parts (cwd p : pystr) : list pystr :=
  norm (split_on (N.eqb SLASH) (path_join cwd p)) [].

Fixpoint strip_common (a b : list pystr) : list pystr * list pystr :=
  match a, b with
  | x :: a', y :: b' =>
      if pystr_eqb x y then strip_common a' b' else (a, b)
  | _, _ => (a, b)
  end.

(** [os.path.relpath(path, start)] with working directory [cwd]. *)
Definition relpath (cwd path start : pystr) : option pystr :=
  if pystr_eqb path [] then None
  else
    let '(s, p) := strip_common (abs_parts cwd start) (abs_parts cwd path) in
    let rel_list := map (fun _ => DOTDOT) s ++ p in
    match rel_list with
    | [] => Some [DOT]
    | _ => Some (join [SLASH] rel_list)
    end.

End Posix.

(** A standard output that is strict UTF-8: a line holding a surrogate
    cannot be written. *)
Definition strict_utf8_stdout (line : pystr) : option pystr :=
  match encode_utf8 line with
  | Raise e => Some e
  | Return _ => None
  end.

Definition posix_runtime (cwd : pystr) : PyRuntime :=
  {| lower_ext := fun _ c _ => [c];
     relpath := Posix.relpath cwd;
     regex := MiniRe.t;
     re_compile := MiniRe.compile;
     re_search := MiniRe.search;
     stdout_error := strict_utf8_stdout |}.

(** The runtime of the examples: working directory [/]. *)
Definition rt : PyRuntime := posix_runtime [SLASH].

(** ** Reference definitions for the statements *)

(** The results one file would give with no bound: its matching lines
    in order, numbered from [line_num]. *)
Fixpoint file_hits `{PyRuntime} (r : regex) (filepath : pystr)
  (lines : list bytes) (line_num : Z) : list hit :=
  match lines with
  | [] => []
  | line :: rest =>
      (if re_search r line
       then [(filepath, line_num, rstrip [CR; LF] (decode_replace line))]
       else [])
      ++ file_hits r filepath rest (line_num + 1)
  end.

(** The results of the whole dictionary with no bound. *)
Definition all_hits `{PyRuntime} (r : regex) (path_filter : option pystr)
  (items : list (pystr * bytes)) : list hit :=
  flat_map
    (fun it : pystr * bytes =>
       if filtered_out path_filter (fst it) then []
       else file_hits r (fst it) (split_on is_LF (snd it)) 1)
    items.

(** The [L]-th line of a file, [L] counted from 1. *)
Definition line_at (content : bytes) (L : Z) : option bytes :=
  if (1 <=? L)%Z then nth_error (split_on is_LF content) (Z.to_nat (L - 1))
  else None.

(** The pattern matches the [L]-th line of the file. *)
Definition matching_line `{PyRuntime} (r : regex) (content : bytes) (L : Z)
  : Prop :=
  exists line, line_at content L = Some line /\ re_search r line = true.

(** The results hold an entry for line [L] of the file at [path]. *)
Definition reported_line (res : list hit) (path : pystr) (L : Z) : Prop :=
  exists txt, In (path, L, txt) res.

(** The number of newline bytes of a file. *)
Definition newlines (content : bytes) : nat :=
  List.length (filter is_LF content).

(** The place of a key in the dictionary order (the length of the list
    when the key is absent). *)
Fixpoint index_of (k : pystr) (ks : list pystr) : nat :=
  match ks with
  | [] => 0
  | k' :: rest => if pystr_eqb k k' then 0 else S (index_of k rest)
  end.

(** [h1] comes strictly before [h2]: an earlier file of the dictionary,
    or the same file and a smaller line number. *)
Definition hit_before (ks : list pystr) (h1 h2 : hit) : Prop :=
  (index_of (hit_path h1) ks < index_of (hit_path h2) ks)%nat
  \/ (hit_path h1 = hit_path h2 /\ (hit_line h1 < hit_line h2)%Z).

(** [a < b] on strings: the order of the code points, a proper prefix
    coming first. *)
Fixpoint pystr_ltb (a b : pystr) : bool :=
  match a, b with
  | _, [] => false
  | [], _ :: _ => true
  | x :: a', y :: b' =>
      if (x <? y)%N then true
      else if (y <? x)%N then false
      else pystr_ltb a' b'
  end.

(** [h1] comes strictly before [h2] in (path, line number) order. *)
Definition hit_lt (h1 h2 : hit) : Prop :=
  pystr_ltb (hit_path h1) (hit_path h2) = true
  \/ (hit_path h1 = hit_path h2 /\ (hit_line h1 < hit_line h2)%Z).

(** The (path, line number) pair of a result. *)
Definition hit_key (h : hit) : pystr * Z := (hit_path h, hit_line h).

(** The line [grep] prints for a pattern that does not compile. *)
Definition invalid_pattern_line (pattern e : pystr) : pystr :=
  of_string "Invalid regex pattern '" ++ pattern ++ of_string "': " ++ e.

(** What [grep] returns or raises, as a function of the object
    alone. *)
Definition grep_outcome `{PyRuntime} (pattern : pystr)
  (pf : option pystr) (m : Z) (cs : bool) (o : InMemoryCodebase)
  : outcome (list hit) :=
  match compile_pattern pattern cs with
  | Compiled r => Return (firstn (Z.to_nat m) (all_hits r pf (files o)))
  | ReError e =>
      match stdout_error (invalid_pattern_line pattern e) with
      | None => Return []
      | Some e' => Raise e'
      end
  | CompileRaised e => Raise e
  end.


(** The world after one more line was printed. *)
Definition printed (w : world) (line : pystr) : world :=
  {| self := self w; stdout := stdout w ++ [line] |}.

(** What [grep_formatted] returns when [grep] gave no result. *)
Definition no_matches (pattern : pystr) : pystr :=
  of_string "No matches found for pattern: " ++ pattern.

(** The reading of the specification: one trailing carriage return or
    newline is removed, if there is one. *)
Definition strip_one_newline (s : pystr) : pystr :=
  match rev s with
  | c :: t => if (N.eqb c CR || N.eqb c LF)%bool then rev t else s
  | [] => s
  end.


(** [os.path.relpath] with the fall-back of [grep_formatted]. *)
Definition rel_path `{PyRuntime} (root filepath : pystr) : pystr :=
  match relpath filepath root with
  | Some p => p
  | None => filepath
  end.

(** The object after [_mmap_file] has stored [content] under
    [filepath]. *)
Definition stored (o : InMemoryCodebase) (filepath : pystr)
  (content : bytes) : InMemoryCodebase :=
  {| codebase_path := codebase_path o;
     files := dict_set filepath content (files o);
     file_sizes := dict_set filepath (len content) (file_sizes o) |}.

(** [m] keeps the property [P] of the object, whether it returns or
    raises. *)
Definition preserves (A : Type) (P : InMemoryCodebase -> Prop) (m : py A)
  : Prop :=
  forall w, P (self w) -> P (self (snd (m w))).

(** The value a method call returns, if it returns. *)
Definition returned (A : Type) (r : outcome A * world) : option A :=
  match fst r with
  | Return a => Some a
  | Raise _ => None
  end.

(** A Unicode scalar value: a code point that is not a surrogate. *)
Definition is_scalar (c : N) : bool :=
  ((c <? 55296) || (57343 <? c) && (c <? 1114112))%N.

(** A world like [w] whose dictionary holds [more] after its files. *)
Definition with_more_files (w : world) (more : list (pystr * bytes)) : world :=
  {| self := {| codebase_path := codebase_path (self w);
                files := files (self w) ++ more;
                file_sizes := file_sizes (self w) |};
     stdout := stdout w |}.

(** ** Example data *)

(** The bytes of a text given by its lines, a newline between two
    lines. *)
Definition text (ls : list string) : bytes :=
  join [byte_LF] (map bytes_of_string ls).

(** A repository: two text files at the top, one in a sub-directory,
    an empty source file, a dot file, a binary, a file that cannot be
    read, one that cannot be mapped and a skipped directory. *)
Definition demo_tree : entry :=
  EDir (of_string "repo")
    [ EFile (of_string "z.txt")
        (Regular (text ["Hello World"; "Foo Bar"; ""]%string));
      EDir (of_string "a")
        [ EFile (of_string "b.txt") (Regular (text ["hello"]%string)) ];
      EFile (of_string "empty.py") (Regular []);
      EFile (of_string ".env") (Regular (text ["KEY=1"]%string));
      EFile (of_string "x.bin") (Regular (text ["Hello"]%string));
      EFile (of_string "gone.md")
        (StatError
           (of_string
              "[Errno 2] No such file or directory: '/repo/gone.md'"));
      EFile (of_string "pipe.txt")
        (MapError 4096 (of_string "[Errno 19] No such device"));
      EDir (of_string "node_modules")
        [ EFile (of_string "m.js") (Regular (text ["Hello"]%string)) ] ].

Definition demo_world : world := @loaded rt (of_string "/repo") demo_tree.

(** A world holding one file. *)
Definition one_file_world (root path : pystr) (content : bytes) : world :=
  {| self := {| codebase_path := root;
                files := [(path, content)];
                file_sizes := [(path, len content)] |};
     stdout := [] |}.

(** One file with two lines, both [a]. *)
Definition two_a_world : world :=
  one_file_world (of_string "/r") (of_string "/r/f.txt")
    (text ["a"; "a"]%string).

(** The compiled form of a one-letter pattern. *)
Definition letter_regex (c : N) (cs : bool) : MiniRe.t :=
  {| MiniRe.branches := [[MiniRe.Lit c]]; MiniRe.case_sensitive := cs |}.

(** The compiled form of [Hello]. *)
Definition hello_regex : MiniRe.t :=
  {| MiniRe.branches :=
       [map MiniRe.Lit (of_string "Hello")];
     MiniRe.case_sensitive := true |}.

(** One file whose only line is [a] followed by two carriage
    returns. *)
Definition two_cr_line : bytes := map ascii_of_N [97; 13; 13]%N.

Definition two_cr_world : world :=
  one_file_world (of_string "/r") (of_string "/r/f.txt") two_cr_line.


(** The first scenario of the specification: one file [a.txt]. *)
Definition s1_tree : entry :=
  EDir (of_string "repo")
    [ EFile (of_string "a.txt")
        (Regular (text ["Hello World"; "Foo Bar"; ""]%string)) ].

(** ** Reference definitions for the loading walk *)

(** What a loop over [os.walk] collects: for each directory, top-down,
    [f root entry] for each of its entries in listing order, then the
    same for each sub-directory that is not skipped. *)
Fixpoint walk_collect (A : Type) (f : pystr -> entry -> list A)
  (root : pystr) (e : entry) {struct e} : list A :=
  match e with
  | EFile _ _ => []
  | EDir _ children =>
      flat_map (f root) children
      ++ (fix subdirs (es : list entry) : list A :=
            match es with
            | [] => []
            | EFile _ _ :: rest => subdirs rest
            | (EDir dirname _ as d) :: rest =>
                (if _should_skip_directory dirname then []
                 else walk_collect f (path_join root dirname) d)
                ++ subdirs rest
            end) children
  end.

(** What the walk does at one directory entry, when it does
    something: it stores a file or prints a line. *)
Inductive load_event : Type :=
| Stored (filepath : pystr) (content : bytes)
| Warned (line : pystr).

(** The event a directory entry causes.  A text file that can be read
    and is not empty is stored; a text file whose size cannot be read,
    or that has a size and cannot be mapped, causes a warning; nothing
    happens for any other entry. *)
Definition file_event `{PyRuntime} (root : pystr) (e : entry)
  : list load_event :=
  match e with
  | EFile filename st =>
      let filepath := path_join root filename in
      let warn e :=
        [Warned (of_string "Warning: Skipping " ++ filepath
                 ++ of_string ": " ++ e)] in
      if _is_text_file filepath then
        match st with
        | Regular content =>
            if (len content =? 0)%Z then [] else [Stored filepath content]
        | StatError msg => warn msg
        | MapError size msg =>
            if (size =? 0)%Z then []
            else warn (of_string "Cannot mmap: " ++ msg)
        end
      else []
  | EDir _ _ => []
  end.

(** The files stored, and the lines printed, by a list of events. *)
Definition stored_files (evs : list load_event) : list (pystr * bytes) :=
  flat_map (fun ev => match ev with
                      | Stored p c => [(p, c)]
                      | Warned _ => []
                      end) evs.

Definition warnings (evs : list load_event) : list pystr :=
  flat_map (fun ev => match ev with
                      | Stored _ _ => []
                      | Warned l => [l]
                      end) evs.

(** The events carried out in order; a [print] that raises ends them. *)
Fixpoint run_events `{PyRuntime} (evs : list load_event) : py unit :=
  match evs with
  | [] => ret tt
  | Stored p c :: rest =>
      (o <- get_self ;; set_self (stored o p c)) ;;; run_events rest
  | Warned l :: rest => print l ;;; run_events rest
  end.

(** The line can be written to the standard output. *)
Definition printable `{PyRuntime} (line : pystr) : Prop :=
  stdout_error line = None.

(** The tree in which every skipped sub-directory, at any depth, is
    emptied; the root is left as it is, whatever its name. *)
Fixpoint prune (e : entry) : entry :=
  match e with
  | EFile name st => EFile name st
  | EDir name children =>
      EDir name
        (map (fun c =>
                match c with
                | EFile _ _ => c
                | EDir d _ =>
                    if _should_skip_directory d then EDir d [] else prune c
                end) children)
  end.

(** A repository with a readable file and a text file that cannot be
    read, whose name holds a byte that is not UTF-8: Python keeps it in
    the name as the lone surrogate U+DC80. *)
Definition escaped_tree : entry :=
  EDir (of_string "repo")
    [ EFile (of_string "a.py") (Regular (text ["x = 1"]%string));
      EFile ([56448%N] ++ of_string ".txt")
        (StatError (of_string "[Errno 13] Permission denied"));
      EFile (of_string "b.py") (Regular (text ["y = 2"]%string)) ].

(** The object after the files of [l] were stored in order. *)
Definition store_all (o : InMemoryCodebase) (l : list (pystr * bytes))
  : InMemoryCodebase :=
  fold_left (fun o it => stored o (fst it) (snd it)) l o.

(** The world after the files of [l] were stored and the lines [ws]
    printed. *)
Definition after_load (w : world) (l : list (pystr * bytes))
  (ws : list pystr) : world :=
  {| self := store_all (self w) l; stdout := stdout w ++ ws |}.

(** No name of the tree starts with a slash (no name of a directory
    entry holds one). *)
Fixpoint names_ok (e : entry) : bool :=
  match e with
  | EFile name _ => negb (startswith [SLASH] name)
  | EDir name children =>
      negb (startswith [SLASH] name) && forallb names_ok children
  end.

(** The entries ["num_files"] and ["total_size_bytes"] of the
    dictionary [get_stats] returns (the other two are floats). *)
Definition stats_num_files (o : InMemoryCodebase) : Z := len (files o).

Definition stats_total_size_bytes (o : InMemoryCodebase) : Z :=
  fold_left Z.add (map snd (file_sizes o)) 0%Z.

(** * Properties *)

(** ** Strings and lists *)

Lemma pystr_eqb_eq (a b : pystr) : pystr_eqb a b = true <-> a = b.
Proof.
  revert b; induction a as [|x a IH]; intros [|y b]; simpl;
    try (split; [discriminate | discriminate]); try tauto.
  rewrite andb_true_iff, N.eqb_eq, IH.
  split; [intros [-> ->]; reflexivity | intros E; inversion E; auto].
Qed.

Lemma pystr_eqb_refl (a : pystr) : pystr_eqb a a = true.
Proof. apply pystr_eqb_eq; reflexivity. Qed.

Lemma pystr_eqb_neq (a b : pystr) : pystr_eqb a b = false <-> a <> b.
Proof.
  rewrite <- pystr_eqb_eq. destruct (pystr_eqb a b); split; congruence.
Qed.

Lemma str_in_In (x : pystr) (s : list pystr) : str_in x s = true <-> In x s.
Proof.
  unfold str_in. rewrite existsb_exists. split.
  - intros (y & Hy & E). apply pystr_eqb_eq in E. subst; assumption.
  - intros Hx. exists x. split; [assumption | apply pystr_eqb_refl].
Qed.

Lemma firstn_firstn_app (A : Type) (n : nat) (a b : list A) :
  firstn n (firstn n a ++ b) = firstn n (a ++ b).
Proof.
  revert a; induction n as [|n IH]; intros a; [reflexivity|].
  destruct a as [|x a]; simpl; [reflexivity|]. now rewrite IH.
Qed.

Lemma firstn_exact_app (A : Type) (a b : list A) :
  firstn (List.length a) (a ++ b) = a.
Proof.
  rewrite firstn_app, Nat.sub_diag, firstn_all. simpl. apply app_nil_r.
Qed.

(** ** The two loops of [grep] *)

Section Scan.

Context `{PyRuntime}.
Variable r : regex.

Lemma grep_lines_firstn (filepath : pystr) (m : Z) (lines : list bytes) :
  forall (n : Z) (results : list hit),
    (List.length results < Z.to_nat m)%nat ->
    grep_lines r filepath m lines n results
    = firstn (Z.to_nat m) (results ++ file_hits r filepath lines n).
Proof.
  induction lines as [|line rest IH]; intros n results Hlt; simpl.
  - rewrite app_nil_r. symmetry. apply firstn_all2. lia.
  - destruct (re_search r line); simpl.
    + set (h := (filepath, n, rstrip [CR; LF] (decode_replace line))).
      assert (Hlen : List.length (results ++ [h]) = S (List.length results))
        by (rewrite length_app; simpl; lia).
      unfold len. rewrite Hlen.
      destruct (Z.geb_spec (Z.of_nat (S (List.length results))) m) as [Hge|Hl].
      * assert (E : Z.to_nat m = List.length (results ++ [h])) by lia.
        rewrite E.
        change (h :: file_hits r filepath rest (n + 1))
          with ([h] ++ file_hits r filepath rest (n + 1)).
        rewrite app_assoc. symmetry. apply firstn_exact_app.
      * rewrite IH by (rewrite Hlen; lia).
        rewrite <- app_assoc. reflexivity.
    + apply IH. assumption.
Qed.

Lemma grep_files_firstn (pf : option pystr) (m : Z)
  (items : list (pystr * bytes)) :
  forall results : list hit,
    (List.length results <= Z.to_nat m)%nat ->
    grep_files r pf m items results
    = firstn (Z.to_nat m) (results ++ all_hits r pf items).
Proof.
  induction items as [|[filepath content] rest IH]; intros results Hle.
  - simpl. rewrite app_nil_r. symmetry. apply firstn_all2. assumption.
  - unfold all_hits. simpl. fold (all_hits r pf rest).
    destruct (filtered_out pf filepath); simpl.
    + apply IH. assumption.
    + unfold len.
      destruct (Z.geb_spec (Z.of_nat (List.length results)) m) as [Hge|Hl].
      * assert (E : Z.to_nat m = List.length results) by lia.
        rewrite E. symmetry. apply firstn_exact_app.
      * rewrite grep_lines_firstn by lia.
        rewrite IH by apply firstn_le_length.
        rewrite firstn_firstn_app, <- app_assoc. reflexivity.
Qed.

(** [grep]'s loops return the first [max_results] of the results that
    no bound would give. *)
Lemma grep_files_spec (pf : option pystr) (m : Z)
  (items : list (pystr * bytes)) :
  grep_files r pf m items [] = firstn (Z.to_nat m) (all_hits r pf items).
Proof. apply grep_files_firstn. simpl. lia. Qed.

End Scan.

(** ** [grep] as a function of the dictionary *)

Section Grep.

Context `{PyRuntime}.

Lemma grep_compiled (pattern : pystr) (pf : option pystr) (m : Z)
  (cs : bool) (w : world) (r : regex) :
  compile_pattern pattern cs = Compiled r ->
  grep pattern pf m cs w
  = (Return (firstn (Z.to_nat m) (all_hits r pf (files (self w)))), w).
Proof.
  intros E. unfold grep. rewrite E.
  unfold bind, get_self, ret. simpl. now rewrite grep_files_spec.
Qed.

Lemma grep_error (pattern : pystr) (pf : option pystr) (m : Z)
  (cs : bool) (w : world) (e : pystr) :
  compile_pattern pattern cs = ReError e ->
  grep pattern pf m cs w
  = match stdout_error (invalid_pattern_line pattern e) with
    | None => (Return [], printed w (invalid_pattern_line pattern e))
    | Some e' => (Raise e', w)
    end.
Proof.
  intros E. unfold grep. rewrite E. unfold bind, print, printed.
  fold (invalid_pattern_line pattern e).
  destruct (stdout_error (invalid_pattern_line pattern e)); reflexivity.
Qed.

Lemma grep_raised (pattern : pystr) (pf : option pystr) (m : Z)
  (cs : bool) (w : world) (e : pystr) :
  compile_pattern pattern cs = CompileRaised e ->
  grep pattern pf m cs w = (Raise e, w).
Proof. intros E. unfold grep. rewrite E. reflexivity. Qed.

(** [grep] only reads the object: its outcome is a function of the
    object, and the object is left as it was. *)
Lemma grep_reads_only (pattern : pystr) (pf : option pystr) (m : Z)
  (cs : bool) (w : world) :
  fst (grep pattern pf m cs w) = grep_outcome pattern pf m cs (self w)
  /\ self (snd (grep pattern pf m cs w)) = self w.
Proof.
  unfold grep_outcome.
  destruct (compile_pattern pattern cs) as [r|e|e] eqn:E.
  - erewrite grep_compiled by eassumption. split; reflexivity.
  - erewrite grep_error by eassumption.
    destruct (stdout_error (invalid_pattern_line pattern e));
      split; reflexivity.
  - erewrite grep_raised by eassumption. split; reflexivity.
Qed.

(** When [grep] returns, the pattern was compiled and the list is the
    beginning of the unbounded results, or the list is empty. *)
Lemma grep_returned_cases (pattern : pystr) (pf : option pystr) (m : Z)
  (cs : bool) (w : world) (res : list hit) :
  returned (grep pattern pf m cs w) = Some res ->
  (exists r, compile_pattern pattern cs = Compiled r
             /\ res = firstn (Z.to_nat m) (all_hits r pf (files (self w))))
  \/ ((forall r, compile_pattern pattern cs <> Compiled r) /\ res = []).
Proof.
  intros Hres.
  destruct (compile_pattern pattern cs) as [r|e|e] eqn:E.
  - erewrite grep_compiled in Hres by eassumption. inversion Hres. eauto.
  - erewrite grep_error in Hres by eassumption. right.
    split; [discriminate|].
    destruct (stdout_error (invalid_pattern_line pattern e));
      inversion Hres; reflexivity.
  - erewrite grep_raised in Hres by eassumption. discriminate.
Qed.

End Grep.

(** ** The bound on the number of results *)

Lemma firstn_app_enough (A : Type) (n : nat) (a b : list A) :
  (n <= List.length (firstn n a))%nat ->
  firstn n (a ++ b) = firstn n a.
Proof.
  intros Hn. pose proof (firstn_le_length n a) as H1.
  assert (Ha : (n <= List.length a)%nat).
  { rewrite length_firstn in Hn. lia. }
  rewrite firstn_app. replace (n - List.length a)%nat with 0%nat by lia.
  simpl. apply app_nil_r.
Qed.

Lemma all_hits_app `{PyRuntime} (r : regex) (pf : option pystr)
  (a b : list (pystr * bytes)) :
  all_hits r pf (a ++ b) = all_hits r pf a ++ all_hits r pf b.
Proof. unfold all_hits. apply flat_map_app. Qed.

(** C3: for a bound [max_results >= 0], the list [grep] returns has at
    most [max_results] entries, and once it holds [max_results] entries
    no file that comes later in the dictionary is looked at; for a
    pattern that compiles [grep] does return, and the list is the first
    [max_results] of the results that an unbounded scan gives. *)
Theorem grep_bounded `{PyRuntime} (pattern : pystr) (pf : option pystr)
  (m : Z) (cs : bool) (w : world) :
  (0 <= m)%Z ->
  (forall res,
      returned (grep pattern pf m cs w) = Some res ->
      (len res <= m)%Z
      /\ (forall more, (m <= len res)%Z ->
            returned (grep pattern pf m cs (with_more_files w more))
            = Some res))
  /\ (forall r, compile_pattern pattern cs = Compiled r ->
        returned (grep pattern pf m cs w)
        = Some (firstn (Z.to_nat m) (all_hits r pf (files (self w))))).
Proof.
  intros Hm. split.
  - intros res Hres.
    destruct (compile_pattern pattern cs) as [r|e|e] eqn:E.
    + rewrite (@grep_compiled _ pattern pf m cs w r E) in Hres.
      inversion Hres; subst res. split.
      * unfold len.
        pose proof (firstn_le_length (Z.to_nat m)
                      (all_hits r pf (files (self w)))). lia.
      * intros more Hfull.
        rewrite (@grep_compiled _ pattern pf m cs _ r E).
        unfold returned. simpl. f_equal.
        rewrite all_hits_app. apply firstn_app_enough.
        unfold len in Hfull. lia.
    + rewrite (@grep_error _ pattern pf m cs w e E) in Hres.
      destruct (stdout_error (invalid_pattern_line pattern e)) eqn:Ep;
        [discriminate|].
      inversion Hres; subst res. split; [exact Hm|].
      intros more _. rewrite (@grep_error _ pattern pf m cs _ e E), Ep.
      reflexivity.
    + rewrite (@grep_raised _ pattern pf m cs w e E) in Hres. discriminate.
  - intros r E. rewrite (@grep_compiled _ pattern pf m cs w r E).
    reflexivity.
Qed.

Lemma grep_bounded_witness :
  (forall res,
      returned (@grep rt (of_string "o") None 2 true demo_world) = Some res ->
      (len res <= 2)%Z
      /\ (forall more, (2 <= len res)%Z ->
            returned (@grep rt (of_string "o") None 2 true
                        (with_more_files demo_world more))
            = Some res))
  /\ (forall r, @compile_pattern rt (of_string "o") true = Compiled r ->
        returned (@grep rt (of_string "o") None 2 true demo_world)
        = Some (firstn (Z.to_nat 2)
                  (@all_hits rt r None (files (self demo_world))))).
Proof.
  apply (@grep_bounded rt (of_string "o") None 2 true demo_world). lia.
Defined.

(** ** Lines *)

Lemma In_firstn (A : Type) (n : nat) (l : list A) (x : A) :
  In x (firstn n l) -> In x l.
Proof.
  intros Hx. rewrite <- (firstn_skipn n l). apply in_or_app. now left.
Qed.

Lemma split_on_nonempty (A : Type) (f : A -> bool) (l : list A) :
  split_on f l <> [].
Proof.
  destruct l as [|x t]; simpl; [discriminate|].
  destruct (f x); [discriminate|]. destruct (split_on f t); discriminate.
Qed.

Lemma split_on_app_sep (A : Type) (f : A -> bool) (a b : list A) (x : A) :
  f x = true ->
  split_on f (a ++ x :: b) = split_on f a ++ split_on f b.
Proof.
  intros Hx. induction a as [|y a IH]; simpl.
  - now rewrite Hx.
  - destruct (f y); [now rewrite IH|].
    rewrite IH. pose proof (split_on_nonempty f a) as Hne.
    destruct (split_on f a) as [|h t]; [contradiction|]. reflexivity.
Qed.

Lemma split_on_no_sep (A : Type) (f : A -> bool) (l : list A) :
  Forall (fun x => f x = false) l -> split_on f l = [l].
Proof.
  induction 1 as [|x l Hx _ IH]; simpl; [reflexivity|].
  now rewrite Hx, IH.
Qed.

Lemma split_on_length (A : Type) (f : A -> bool) (l : list A) :
  List.length (split_on f l) = S (List.length (filter f l)).
Proof.
  induction l as [|x l IH]; simpl; [reflexivity|].
  destruct (f x); simpl; [now rewrite IH|].
  pose proof (split_on_nonempty f l) as Hne.
  destruct (split_on f l) as [|h t]; [contradiction|]. exact IH.
Qed.

(** No piece of a split holds a separator. *)
Lemma split_on_pieces (A : Type) (f : A -> bool) (l : list A) :
  Forall (Forall (fun x => f x = false)) (split_on f l).
Proof.
  induction l as [|x l IH]; simpl.
  - repeat constructor.
  - destruct (f x) eqn:Hx; [constructor; [constructor | exact IH]|].
    destruct (split_on f l) as [|h t]; [repeat constructor; exact Hx|].
    inversion IH; subst. constructor; [constructor; assumption | assumption].
Qed.

Lemma is_LF_true (b : ascii) : is_LF b = true <-> b = byte_LF.
Proof. unfold is_LF. apply Ascii.eqb_eq. Qed.

Lemma filter_none (A : Type) (f : A -> bool) (l : list A) :
  Forall (fun x => f x = false) l -> filter f l = [].
Proof.
  induction 1 as [|x l Hx _ IH]; simpl; [reflexivity | now rewrite Hx].
Qed.

(** A last line without a final newline is line number
    [newlines + 1]. *)
Lemma line_at_last (pre last_line : bytes) :
  Forall (fun b => is_LF b = false) last_line ->
  pre = [] \/ (exists pre', pre = pre' ++ [byte_LF]) ->
  line_at (pre ++ last_line)
    (Z.of_nat (newlines (pre ++ last_line)) + 1) = Some last_line.
Proof.
  intros Hlast Hpre. unfold line_at, newlines.
  set (k := List.length (filter is_LF (pre ++ last_line))).
  destruct (Z.leb_spec 1 (Z.of_nat k + 1)); [|lia].
  replace (Z.to_nat (Z.of_nat k + 1 - 1)) with k by lia.
  subst k. destruct Hpre as [-> | [pre' ->]].
  - simpl. rewrite (split_on_no_sep _ Hlast), (filter_none _ Hlast).
    reflexivity.
  - rewrite <- app_assoc. simpl.
    rewrite split_on_app_sep by reflexivity.
    rewrite (split_on_no_sep _ Hlast).
    rewrite filter_app. simpl. rewrite (filter_none _ Hlast), length_app.
    simpl.
    rewrite nth_error_app2 by (rewrite split_on_length; lia).
    rewrite split_on_length.
    replace (List.length (filter is_LF pre') + 1
             - S (List.length (filter is_LF pre')))%nat
      with 0%nat by lia.
    reflexivity.
Qed.

(** ** What is reported against one file *)

Section Reported.

Context `{PyRuntime}.
Variable r : regex.

Lemma file_hits_In (fp : pystr) (lines : list bytes) :
  forall (n : Z) (p : pystr) (L : Z) (txt : pystr),
    In (p, L, txt) (file_hits r fp lines n) <->
    p = fp /\ (n <= L)%Z /\
    exists line,
      nth_error lines (Z.to_nat (L - n)) = Some line
      /\ re_search r line = true
      /\ txt = rstrip [CR; LF] (decode_replace line).
Proof.
  induction lines as [|line0 rest IH]; intros n p L txt; simpl.
  - split; [contradiction|].
    intros (_ & _ & line & E & _). destruct (Z.to_nat (L - n)); discriminate.
  - rewrite in_app_iff, IH. split.
    + intros [Hhead | (-> & Hle & line & E & Hs & ->)].
      * destruct (re_search r line0) eqn:Hs; [|contradiction].
        destruct Hhead as [Hhead|[]]. inversion Hhead; subst.
        split; [reflexivity|]. split; [lia|].
        exists line0. rewrite Z.sub_diag. simpl. auto.
      * split; [reflexivity|]. split; [lia|]. exists line.
        replace (Z.to_nat (L - n)) with (S (Z.to_nat (L - (n + 1)))) by lia.
        simpl. auto.
    + intros (-> & Hle & line & E & Hs & ->).
      destruct (Z.eq_dec L n) as [->|Hne].
      * left. rewrite Z.sub_diag in E. simpl in E. inversion E; subst.
        rewrite Hs. now left.
      * right. split; [reflexivity|]. split; [lia|]. exists line.
        replace (Z.to_nat (L - n)) with (S (Z.to_nat (L - (n + 1)))) in E
          by lia.
        simpl in E. auto.
Qed.

Lemma file_hits_path (fp : pystr) (lines : list bytes) (n : Z) (h : hit) :
  In h (file_hits r fp lines n) -> hit_path h = fp.
Proof.
  destruct h as [[p L] txt]. intros Hin.
  apply file_hits_In in Hin. simpl. tauto.
Qed.

Lemma all_hits_In (pf : option pystr) (items : list (pystr * bytes))
  (h : hit) :
  In h (all_hits r pf items) <->
  exists content,
    In (hit_path h, content) items
    /\ filtered_out pf (hit_path h) = false
    /\ In h (file_hits r (hit_path h) (split_on is_LF content) 1).
Proof.
  unfold all_hits. rewrite in_flat_map. split.
  - intros ([fp content] & Hit & Hin). simpl in Hin.
    destruct (filtered_out pf fp) eqn:Hf; [contradiction|].
    pose proof (file_hits_path _ _ _ _ Hin) as E. subst fp.
    exists content. auto.
  - intros (content & Hit & Hf & Hin).
    exists (hit_path h, content). simpl. rewrite Hf. auto.
Qed.

End Reported.

(** In a dictionary a key has one value. *)
Lemma dict_value_unique (V : Type) (d : list (pystr * V)) (k : pystr)
  (v1 v2 : V) :
  NoDup (keys d) -> In (k, v1) d -> In (k, v2) d -> v1 = v2.
Proof.
  induction d as [|[k' v'] d IH]; simpl; intros Hnd H1 H2; [contradiction|].
  inversion Hnd as [|? ? Hnotin Hnd']; subst.
  destruct H1 as [H1|H1], H2 as [H2|H2].
  - congruence.
  - inversion H1; subst. exfalso. apply Hnotin.
    change k with (fst (k, v2)). now apply in_map.
  - inversion H2; subst. exfalso. apply Hnotin.
    change k with (fst (k, v1)). now apply in_map.
  - now apply IH.
Qed.

Ltac nodup_by_computation :=
  vm_compute;
  repeat (constructor; [simpl; intuition discriminate|]);
  constructor.

(** ** The order of the results *)


Lemma StronglySorted_app (A : Type) (R : A -> A -> Prop) (a b : list A) :
  StronglySorted R a -> StronglySorted R b ->
  (forall x y, In x a -> In y b -> R x y) ->
  StronglySorted R (a ++ b).
Proof.
  intros Ha Hb Hab. induction Ha as [|x a Ha IH Hx]; simpl; [assumption|].
  constructor.
  - apply IH. intros; apply Hab; simpl; auto.
  - apply Forall_app. split; [assumption|].
    apply Forall_forall. intros y Hy. apply Hab; simpl; auto.
Qed.

Lemma StronglySorted_weaken (A : Type) (R R' : A -> A -> Prop) (l : list A) :
  (forall x y, In x l -> In y l -> R x y -> R' x y) ->
  StronglySorted R l -> StronglySorted R' l.
Proof.
  intros Himp Hs. induction Hs as [|x l Hs IH Hx]; constructor.
  - apply IH. intros; apply Himp; simpl; auto.
  - rewrite Forall_forall in *. intros y Hy.
    apply Himp; simpl; auto.
Qed.

Lemma StronglySorted_firstn (A : Type) (R : A -> A -> Prop) (n : nat)
  (l : list A) :
  StronglySorted R l -> StronglySorted R (firstn n l).
Proof.
  intros Hs. revert n. induction Hs as [|x l Hs IH Hx]; intros [|n]; simpl;
    try constructor.
  - apply IH.
  - rewrite Forall_forall in *. intros y Hy. apply Hx.
    eapply In_firstn; eassumption.
Qed.

Lemma StronglySorted_NoDup_map (A B : Type) (R : A -> A -> Prop)
  (f : A -> B) (l : list A) :
  (forall x y, R x y -> f x <> f y) ->
  StronglySorted R l -> NoDup (map f l).
Proof.
  intros Hne Hs. induction Hs as [|x l Hs IH Hx]; simpl; constructor.
  - rewrite in_map_iff. intros (y & E & Hy).
    rewrite Forall_forall in Hx. apply (Hne x y (Hx y Hy)). congruence.
  - exact IH.
Qed.

Lemma index_of_lt_In (k : pystr) (ks : list pystr) :
  In k ks <-> (index_of k ks < List.length ks)%nat.
Proof.
  induction ks as [|k' ks IH]; simpl; [split; [contradiction | lia]|].
  destruct (pystr_eqb k k') eqn:E.
  - apply pystr_eqb_eq in E. subst. split; [lia | auto].
  - apply pystr_eqb_neq in E. rewrite IH. split.
    + intros [E'|Hl]; [congruence | lia].
    + intros Hl. right. lia.
Qed.

Lemma index_of_head (k : pystr) (ks : list pystr) : index_of k (k :: ks) = 0%nat.
Proof. simpl. now rewrite pystr_eqb_refl. Qed.

Lemma index_of_tail (p k : pystr) (ks : list pystr) :
  p <> k -> index_of p (k :: ks) = S (index_of p ks).
Proof. intros Hne. simpl. apply pystr_eqb_neq in Hne. now rewrite Hne. Qed.

Section Order.

Context `{PyRuntime}.
Variable r : regex.

Lemma file_hits_sorted (ks : list pystr) (fp : pystr) (lines : list bytes) :
  forall n, StronglySorted (hit_before ks) (file_hits r fp lines n).
Proof.
  induction lines as [|line rest IH]; intros n; simpl; [constructor|].
  destruct (re_search r line); simpl; [|apply IH].
  constructor; [apply IH|].
  apply Forall_forall. intros [[p L] txt] Hin.
  apply file_hits_In in Hin. destruct Hin as (-> & Hle & _).
  right. unfold hit_path, hit_line. simpl. split; [reflexivity | lia].
Qed.

Lemma all_hits_paths (pf : option pystr) (items : list (pystr * bytes))
  (h : hit) :
  In h (all_hits r pf items) -> In (hit_path h) (keys items).
Proof.
  intros Hin. apply all_hits_In in Hin. destruct Hin as (c & Hc & _).
  unfold keys. change (hit_path h) with (fst (hit_path h, c)).
  now apply in_map.
Qed.

Lemma all_hits_sorted (pf : option pystr) (items : list (pystr * bytes)) :
  NoDup (keys items) ->
  StronglySorted (hit_before (keys items)) (all_hits r pf items).
Proof.
  induction items as [|[k c] rest IH]; intros Hnd; [constructor|].
  inversion Hnd as [|? ? Hnotin Hnd']; subst.
  change (keys ((k, c) :: rest)) with (k :: keys rest).
  unfold all_hits. simpl flat_map. fold (all_hits r pf rest).
  assert (Hrest : StronglySorted (hit_before (k :: keys rest))
                    (all_hits r pf rest)).
  { apply StronglySorted_weaken with (R := hit_before (keys rest));
      [|apply IH; assumption].
    intros x y Hx Hy Hxy.
    apply all_hits_paths in Hx. apply all_hits_paths in Hy.
    assert (Ex : hit_path x <> k) by (intros E; rewrite E in Hx; contradiction).
    assert (Ey : hit_path y <> k) by (intros E; rewrite E in Hy; contradiction).
    destruct Hxy as [Hlt|Hsame]; [left | right; assumption].
    rewrite (index_of_tail _ Ex), (index_of_tail _ Ey). lia. }
  apply StronglySorted_app.
  - destruct (filtered_out pf k); [constructor | apply file_hits_sorted].
  - exact Hrest.
  - intros x y Hx Hy. left.
    assert (Ex : hit_path x = k).
    { simpl in Hx. destruct (filtered_out pf k); [contradiction|].
      eapply file_hits_path; eassumption. }
    apply all_hits_paths in Hy.
    assert (Ey : hit_path y <> k) by (intros E; rewrite E in Hy; contradiction).
    rewrite Ex, index_of_head, (index_of_tail _ Ey). lia.
Qed.

End Order.

Lemma index_of_sorted_keys (ks : list pystr) (p1 p2 : pystr) :
  StronglySorted (fun a b => pystr_ltb a b = true) ks ->
  In p1 ks -> In p2 ks ->
  (index_of p1 ks < index_of p2 ks)%nat ->
  pystr_ltb p1 p2 = true.
Proof.
  intros Hs. induction Hs as [|k ks Hs IH Hk]; intros H1 H2 Hlt;
    [contradiction|].
  destruct (list_eq_dec N.eq_dec p2 k) as [->|N2].
  - rewrite index_of_head in Hlt. lia.
  - destruct H2 as [E|H2]; [congruence|].
    destruct (list_eq_dec N.eq_dec p1 k) as [->|N1].
    + rewrite Forall_forall in Hk. now apply Hk.
    + destruct H1 as [E|H1]; [congruence|].
      rewrite (index_of_tail _ N1), (index_of_tail _ N2) in Hlt.
      apply IH; [assumption | assumption | lia].
Qed.

(** C2, as amended: the results follow the order of the dictionary (the
    order in which the loading walk met the files), with ascending line
    numbers within a file, and no (path, line number) pair occurs twice;
    they are in ascending (path, line number) order whenever the keys of
    the dictionary are. *)
Theorem grep_order `{PyRuntime} (pattern : pystr) (pf : option pystr)
  (m : Z) (cs : bool) (w : world) (res : list hit) :
  NoDup (keys (files (self w))) ->
  returned (grep pattern pf m cs w) = Some res ->
  StronglySorted (hit_before (keys (files (self w)))) res
  /\ NoDup (map hit_key res)
  /\ (StronglySorted (fun a b => pystr_ltb a b = true)
        (keys (files (self w))) ->
      StronglySorted hit_lt res).
Proof.
  intros Hnd Hres.
  assert (Hsorted : StronglySorted (hit_before (keys (files (self w)))) res
                    /\ Forall (fun h => In (hit_path h)
                                          (keys (files (self w)))) res).
  { destruct (grep_returned_cases _ _ _ _ _ Hres) as [(r & E & ->)|[_ ->]].
    - split.
      + apply StronglySorted_firstn. now apply all_hits_sorted.
      + apply Forall_forall. intros h Hh. apply In_firstn in Hh.
        eapply all_hits_paths; eassumption.
    - split; constructor. }
  destruct Hsorted as [Hsorted Hpaths]. split; [assumption|]. split.
  - apply StronglySorted_NoDup_map with (R := hit_before (keys (files (self w))));
      [|assumption].
    intros x y [Hlt|[_ Hlt]] E; unfold hit_key in E; inversion E.
    + rewrite H1 in Hlt. lia.
    + lia.
  - intros Hkeys.
    apply StronglySorted_weaken with (R := hit_before (keys (files (self w))));
      [|assumption].
    rewrite Forall_forall in Hpaths.
    intros x y Hx Hy [Hlt|Hsame]; [left | right; assumption].
    eapply index_of_sorted_keys; eauto.
Qed.

(** C2 as stated fails: the walk meets [/repo/z.txt] before
    [/repo/a/b.txt], so a result of the smaller path comes last. *)
Lemma grep_walk_order_not_ascending :
  keys (files (self demo_world))
  = [of_string "/repo/z.txt"; of_string "/repo/a/b.txt"]
  /\ returned (@grep rt (of_string "o") None 100 true demo_world)
     = Some [(of_string "/repo/z.txt", 1%Z, of_string "Hello World");
             (of_string "/repo/z.txt", 2%Z, of_string "Foo Bar");
             (of_string "/repo/a/b.txt", 1%Z, of_string "hello")]
  /\ pystr_ltb (of_string "/repo/a/b.txt") (of_string "/repo/z.txt") = true.
Proof. repeat split; vm_compute; reflexivity. Qed.

Lemma grep_order_witness :
  StronglySorted (hit_before (keys (files (self demo_world))))
    [(of_string "/repo/z.txt", 1%Z, of_string "Hello World");
     (of_string "/repo/z.txt", 2%Z, of_string "Foo Bar");
     (of_string "/repo/a/b.txt", 1%Z, of_string "hello")]
  /\ NoDup (map hit_key
              [(of_string "/repo/z.txt", 1%Z, of_string "Hello World");
               (of_string "/repo/z.txt", 2%Z, of_string "Foo Bar");
               (of_string "/repo/a/b.txt", 1%Z, of_string "hello")])
  /\ (StronglySorted (fun a b => pystr_ltb a b = true)
        (keys (files (self demo_world))) ->
      StronglySorted hit_lt
        [(of_string "/repo/z.txt", 1%Z, of_string "Hello World");
         (of_string "/repo/z.txt", 2%Z, of_string "Foo Bar");
         (of_string "/repo/a/b.txt", 1%Z, of_string "hello")]).
Proof.
  apply (@grep_order rt (of_string "o") None 100 true demo_world).
  - nodup_by_computation.
  - vm_compute. reflexivity.
Defined.

(** ** What is reported against one file, exactly *)

Lemma file_hits_keys_NoDup `{PyRuntime} (r : regex) (fp : pystr)
  (lines : list bytes) (n : Z) :
  NoDup (map hit_key (file_hits r fp lines n)).
Proof.
  apply StronglySorted_NoDup_map with (R := hit_before []).
  - intros x y [Hlt|[Hp Hl]] E; unfold hit_key in E; inversion E.
    + simpl in Hlt. lia.
    + lia.
  - apply file_hits_sorted.
Qed.

(** The matching lines of a file are the lines of its unbounded
    results. *)
Lemma matching_line_file_hits `{PyRuntime} (r : regex) (path : pystr)
  (content : bytes) (L : Z) :
  matching_line r content L <->
  exists txt, In (path, L, txt) (file_hits r path (split_on is_LF content) 1).
Proof.
  unfold matching_line, line_at. split.
  - intros (line & E & Hs). destruct (Z.leb_spec 1 L); [|discriminate].
    exists (rstrip [CR; LF] (decode_replace line)).
    apply file_hits_In. split; [reflexivity|]. split; [lia|].
    exists line. auto.
  - intros (txt & Hin). apply file_hits_In in Hin.
    destruct Hin as (_ & Hle & line & E & Hs & _).
    exists line. destruct (Z.leb_spec 1 L); [|lia]. auto.
Qed.

(** What the bounded results hold for one file of the dictionary:
    the beginning of its own results that the earlier files left room
    for. *)
Lemma reported_in_file `{PyRuntime} (r : regex) (pf : option pystr)
  (before after : list (pystr * bytes)) (path : pystr) (content : bytes)
  (M : nat) (L : Z) (txt : pystr) :
  NoDup (keys (before ++ (path, content) :: after)) ->
  In (path, L, txt)
     (firstn M (all_hits r pf (before ++ (path, content) :: after)))
  <-> In (path, L, txt)
        (firstn (M - List.length (all_hits r pf before))
           (if filtered_out pf path then []
            else file_hits r path (split_on is_LF content) 1)).
Proof.
  intros Hnd. unfold keys in Hnd. rewrite map_app in Hnd. simpl in Hnd.
  pose proof (NoDup_remove_2 _ _ _ Hnd) as Hpath.
  assert (Hb : forall n, ~ In (path, L, txt) (firstn n (all_hits r pf before))).
  { intros n Hin. apply In_firstn, all_hits_paths in Hin.
    apply Hpath, in_or_app. now left. }
  assert (Ha : forall n, ~ In (path, L, txt) (firstn n (all_hits r pf after))).
  { intros n Hin. apply In_firstn, all_hits_paths in Hin.
    apply Hpath, in_or_app. now right. }
  rewrite all_hits_app.
  change (all_hits r pf ((path, content) :: after))
    with ((if filtered_out pf path then []
           else file_hits r path (split_on is_LF content) 1)
          ++ all_hits r pf after).
  rewrite !firstn_app, !in_app_iff.
  split.
  - intros [Hin|[Hin|Hin]]; [now apply Hb in Hin | exact Hin
                             | now apply Ha in Hin].
  - intros Hin. right. now left.
Qed.

(** C1, as amended: every line number [grep] reports against a file of
    the dictionary is the 1-based index of a piece of the file's bytes
    split on newline that the pattern matches.  The reported numbers
    are exactly those indices if and only if the file has no matching
    line, or it passes the path filter and the bound leaves room for
    the results of the files before it and for all of its own; so they
    are whenever the file passes the filter and the corpus holds at most
    [max_results] results.  A last line without a final newline is the
    piece number [newlines + 1]. *)
Theorem grep_reports_matching_lines `{PyRuntime} (pattern : pystr)
  (pf : option pystr) (m : Z) (cs : bool) (w : world) (r : regex)
  (res : list hit) (path : pystr) (content : bytes)
  (before after : list (pystr * bytes)) :
  NoDup (keys (files (self w))) ->
  compile_pattern pattern cs = Compiled r ->
  returned (grep pattern pf m cs w) = Some res ->
  files (self w) = before ++ (path, content) :: after ->
  (forall L, reported_line res path L -> matching_line r content L)
  /\ ((forall L, reported_line res path L <-> matching_line r content L)
      <->
      ((forall L, ~ matching_line r content L)
       \/ (filtered_out pf path = false
           /\ (len (all_hits r pf before)
               + len (file_hits r path (split_on is_LF content) 1)
               <= m)%Z)))
  /\ (filtered_out pf path = false ->
      (len (all_hits r pf (files (self w))) <= m)%Z ->
      forall L, reported_line res path L <-> matching_line r content L)
  /\ (filtered_out pf path = false -> (len res < m)%Z ->
      forall L, reported_line res path L <-> matching_line r content L)
  /\ (forall pre last_line,
        content = pre ++ last_line ->
        Forall (fun b => is_LF b = false) last_line ->
        pre = [] \/ (exists pre', pre = pre' ++ [byte_LF]) ->
        line_at content (Z.of_nat (newlines content) + 1) = Some last_line).
Proof.
  intros Hnd Hc Hres Hfiles.
  erewrite grep_compiled in Hres by eassumption.
  unfold returned in Hres. simpl in Hres. inversion Hres as [Eres]. clear Hres.
  rewrite Hfiles in *.
  set (fh := file_hits r path (split_on is_LF content) 1) in *.
  set (A := all_hits r pf before) in *.
  assert (Hrep : forall L,
             reported_line
               (firstn (Z.to_nat m)
                  (all_hits r pf (before ++ (path, content) :: after)))
               path L
             <-> exists txt,
                   In (path, L, txt)
                      (firstn (Z.to_nat m - List.length A)
                         (if filtered_out pf path then [] else fh))).
  { intros L. unfold reported_line.
    split; intros [txt Hin]; exists txt;
      now apply (reported_in_file r pf before after path content) in Hin. }
  assert (Hmatch : forall L,
             matching_line r content L <-> exists txt, In (path, L, txt) fh)
    by (intros L; apply matching_line_file_hits).
  assert (Hsound : forall L,
             reported_line
               (firstn (Z.to_nat m)
                  (all_hits r pf (before ++ (path, content) :: after)))
               path L
             -> matching_line r content L).
  { intros L HL. apply Hrep in HL. destruct HL as [txt Hin].
    apply In_firstn in Hin. apply Hmatch. exists txt.
    destruct (filtered_out pf path); [contradiction | exact Hin]. }
  assert (Hroom : filtered_out pf path = false ->
                  (len A + len fh <= m)%Z ->
                  forall L,
                    reported_line
                      (firstn (Z.to_nat m)
                         (all_hits r pf (before ++ (path, content) :: after)))
                      path L
                    <-> matching_line r content L).
  { intros Hf Hle L. rewrite Hrep, Hmatch, Hf.
    rewrite firstn_all2; [reflexivity|]. unfold len in Hle. lia. }
  assert (Hlen : len (all_hits r pf (before ++ (path, content) :: after))
                 = (len A + len (if filtered_out pf path then [] else fh)
                    + len (all_hits r pf after))%Z).
  { rewrite all_hits_app.
    change (all_hits r pf ((path, content) :: after))
      with ((if filtered_out pf path then [] else fh)
            ++ all_hits r pf after).
    unfold len. rewrite !length_app. fold A. lia. }
  split; [exact Hsound|]. split; [|split; [|split]].
  - split.
    + intros Hex.
      destruct fh as [|h0 t0] eqn:Efh.
      { left. intros L HL. apply Hmatch in HL. now destruct HL. }
      right.
      assert (Hf : filtered_out pf path = false).
      { destruct (filtered_out pf path) eqn:Hf; [|reflexivity]. exfalso.
        destruct h0 as [[p0 L0] txt0].
        assert (p0 = path).
        { apply (@file_hits_path _ r path (split_on is_LF content) 1
                   (p0, L0, txt0)).
          fold fh. rewrite Efh. now left. }
        subst p0.
        assert (HL : matching_line r content L0)
          by (apply Hmatch; exists txt0; now left).
        apply Hex, Hrep in HL. destruct HL as [txt Hin].
        now rewrite firstn_nil in Hin. }
      split; [exact Hf|].
      destruct (Z_le_gt_dec (len A + len (h0 :: t0)) m) as [Hle|Hgt];
        [exact Hle|]. exfalso.
      set (k := (Z.to_nat m - List.length A)%nat) in *.
      assert (Hk : (k < List.length (h0 :: t0))%nat)
        by (unfold len in Hgt; subst k; simpl in *; lia).
      pose proof (file_hits_keys_NoDup r path (split_on is_LF content) 1)
        as Hkeys.
      fold fh in Hkeys. rewrite Efh in Hkeys.
      rewrite <- (firstn_skipn k (h0 :: t0)) in Hkeys.
      destruct (skipn k (h0 :: t0)) as [|[[p1 L1] txt1] rest] eqn:Es.
      { pose proof (length_skipn k (h0 :: t0)) as Hl. rewrite Es in Hl.
        cbn [List.length] in Hl, Hk. lia. }
      assert (Hin1 : In (p1, L1, txt1) (h0 :: t0)).
      { rewrite <- (firstn_skipn k (h0 :: t0)), Es.
        apply in_or_app. right. now left. }
      assert (p1 = path).
      { apply (@file_hits_path _ r path (split_on is_LF content) 1
                 (p1, L1, txt1)).
        fold fh. now rewrite Efh. }
      subst p1.
      assert (HL : matching_line r content L1)
        by (apply Hmatch; exists txt1; exact Hin1).
      apply Hex, Hrep in HL. destruct HL as [txt Hin]. rewrite Hf in Hin.
      rewrite map_app in Hkeys. simpl in Hkeys.
      apply NoDup_remove_2 in Hkeys. apply Hkeys, in_or_app. left.
      change (hit_key (path, L1, txt1)) with (hit_key (path, L1, txt)).
      now apply in_map.
    + intros [Hnone|[Hf Hle]].
      * intros L. split; [apply Hsound|]. intros HL. now apply Hnone in HL.
      * now apply Hroom.
  - intros Hf Hle. apply Hroom; [exact Hf|].
    rewrite Hlen, Hf in Hle. unfold len in *. lia.
  - intros Hf Hlt. apply Hroom; [exact Hf|].
    rewrite Hf in Hlen. unfold len in *. rewrite length_firstn in Hlt. lia.
  - intros pre last_line -> Hlast Hpre. now apply line_at_last.
Qed.

Lemma grep_reports_matching_lines_witness :
  (forall L,
      reported_line
        [(of_string "/repo/z.txt", 1%Z, of_string "Hello World")]
        (of_string "/repo/z.txt") L ->
      @matching_line rt hello_regex
        (text ["Hello World"; "Foo Bar"; ""]%string) L)
  /\ ((forall L,
          reported_line
            [(of_string "/repo/z.txt", 1%Z, of_string "Hello World")]
            (of_string "/repo/z.txt") L
          <-> @matching_line rt hello_regex
                (text ["Hello World"; "Foo Bar"; ""]%string) L)
      <->
      ((forall L,
           ~ @matching_line rt hello_regex
               (text ["Hello World"; "Foo Bar"; ""]%string) L)
       \/ (@filtered_out None (of_string "/repo/z.txt") = false
           /\ (len (@all_hits rt hello_regex None [])
               + len (@file_hits rt hello_regex (of_string "/repo/z.txt")
                        (split_on is_LF
                           (text ["Hello World"; "Foo Bar"; ""]%string)) 1)
               <= 1)%Z)))
  /\ (@filtered_out None (of_string "/repo/z.txt") = false ->
      (len (@all_hits rt hello_regex None (files (self demo_world))) <= 1)%Z ->
      forall L,
        reported_line
          [(of_string "/repo/z.txt", 1%Z, of_string "Hello World")]
          (of_string "/repo/z.txt") L
        <-> @matching_line rt hello_regex
              (text ["Hello World"; "Foo Bar"; ""]%string) L)
  /\ (@filtered_out None (of_string "/repo/z.txt") = false ->
      (len [(of_string "/repo/z.txt", 1%Z, of_string "Hello World")] < 1)%Z ->
      forall L,
        reported_line
          [(of_string "/repo/z.txt", 1%Z, of_string "Hello World")]
          (of_string "/repo/z.txt") L
        <-> @matching_line rt hello_regex
              (text ["Hello World"; "Foo Bar"; ""]%string) L)
  /\ (forall pre last_line,
        text ["Hello World"; "Foo Bar"; ""]%string = pre ++ last_line ->
        Forall (fun b => is_LF b = false) last_line ->
        pre = [] \/ (exists pre', pre = pre' ++ [byte_LF]) ->
        line_at (text ["Hello World"; "Foo Bar"; ""]%string)
          (Z.of_nat (newlines (text ["Hello World"; "Foo Bar"; ""]%string)) + 1)
        = Some last_line).
Proof.
  apply (@grep_reports_matching_lines rt (of_string "Hello") None 1 true
           demo_world hello_regex
           [(of_string "/repo/z.txt", 1%Z, of_string "Hello World")]
           (of_string "/repo/z.txt")
           (text ["Hello World"; "Foo Bar"; ""]%string)
           []
           [(of_string "/repo/a/b.txt", text ["hello"]%string)]).
  - nodup_by_computation.
  - vm_compute. reflexivity.
  - vm_compute. reflexivity.
  - vm_compute. reflexivity.
Defined.

(** C1 as stated fails when the bound cuts the scan: with
    [max_results = 1] the second line of the file matches and is not
    reported. *)
Lemma grep_cut_misses_line :
  @compile_pattern rt (of_string "a") true
  = Compiled (letter_regex 97 true)
  /\ returned (@grep rt (of_string "a") None 1 true two_a_world)
     = Some [(of_string "/r/f.txt", 1%Z, of_string "a")]
  /\ In (of_string "/r/f.txt", text ["a"; "a"]%string)
        (files (self two_a_world))
  /\ line_at (text ["a"; "a"]%string) 2 = Some (bytes_of_string "a")
  /\ @re_search rt (letter_regex 97 true) (bytes_of_string "a") = true
  /\ ~ (exists txt,
          In (of_string "/r/f.txt", 2%Z, txt)
             [(of_string "/r/f.txt", 1%Z, of_string "a")]).
Proof.
  repeat split; try (vm_compute; reflexivity).
  - left. reflexivity.
  - intros [txt [E|[]]]. discriminate.
Qed.

(** ** The loading walk *)

(** Induction on directory trees. *)
Lemma entry_tree_ind (P : entry -> Prop) :
  (forall name st, P (EFile name st)) ->
  (forall name children, Forall P children -> P (EDir name children)) ->
  forall e, P e.
Proof.
  intros Hfile Hdir. fix IH 1. intros [name st|name children].
  - apply Hfile.
  - apply Hdir. induction children as [|c rest IHrest]; constructor.
    + apply IH.
    + exact IHrest.
Qed.

Section Walk.

Context `{PyRuntime}.
Variable P : InMemoryCodebase -> Prop.
Hypothesis P_stored :
  forall o filepath content, P o -> content <> [] -> P (stored o filepath content).

Lemma preserves_ret (A : Type) (a : A) : preserves P (ret a).
Proof. intros w Hw. exact Hw. Qed.

Lemma preserves_bind (A B : Type) (m : py A) (k : A -> py B) :
  preserves P m -> (forall a, preserves P (k a)) -> preserves P (bind m k).
Proof.
  intros Hm Hk w Hw. unfold bind. specialize (Hm w Hw).
  destruct (m w) as [[a|e] w']; simpl in *; [now apply Hk | assumption].
Qed.

Lemma preserves_for_each (A : Type) (xs : list A) (body : A -> py unit) :
  (forall x, preserves P (body x)) -> preserves P (for_each xs body).
Proof.
  intros Hbody. induction xs as [|x rest IH]; simpl.
  - apply preserves_ret.
  - apply preserves_bind; [apply Hbody | intros _; exact IH].
Qed.

Lemma _mmap_file_preserves (filepath : pystr) (st : file_state) :
  preserves P (_mmap_file filepath st).
Proof.
  intros w Hw. destruct st as [content|msg|size msg]; simpl.
  - destruct (Z.eqb_spec (len content) 0) as [E|N]; [exact Hw|].
    unfold bind, get_self, set_self. simpl.
    apply (P_stored filepath Hw). intros ->. apply N. reflexivity.
  - exact Hw.
  - destruct (size =? 0)%Z; exact Hw.
Qed.

Lemma load_file_preserves (root : pystr) (e : entry) :
  preserves P (load_file root e).
Proof.
  destruct e as [filename st|dirname sub]; simpl; [|apply preserves_ret].
  destruct (_is_text_file (path_join root filename)); simpl;
    [|apply preserves_ret].
  intros w Hw. unfold try_except.
  pose proof (@_mmap_file_preserves (path_join root filename) st w Hw) as Hm.
  destruct (_mmap_file (path_join root filename) st w) as [[[]|e] w'];
    simpl in *; [assumption|].
  unfold print.
  match goal with
  | |- context [stdout_error ?l] => destruct (stdout_error l)
  end; simpl; assumption.
Qed.

Lemma load_walk_preserves (e : entry) :
  forall root, preserves P (load_walk root e).
Proof.
  induction e as [name st|name children IH] using entry_tree_ind;
    intros root; simpl.
  - apply preserves_ret.
  - apply preserves_bind.
    + apply preserves_for_each. intros c. apply load_file_preserves.
    + intros _. induction IH as [|c rest Hc _ IHrest].
      * apply preserves_ret.
      * destruct c as [fname st|dirname sub]; [exact IHrest|].
        apply preserves_bind; [|intros _; exact IHrest].
        destruct (_should_skip_directory dirname);
          [apply preserves_ret | apply Hc].
Qed.

Lemma loaded_preserves (path : pystr) (tree : entry) :
  P (self (new_world path)) -> P (self (loaded path tree)).
Proof.
  intros H0. unfold loaded, _load_codebase, bind, get_self. simpl.
  now apply load_walk_preserves.
Qed.

End Walk.

Lemma dict_set_keys (V : Type) (k : pystr) (v : V) (d : list (pystr * V)) :
  keys (dict_set k v d) = if str_in k (keys d) then keys d else keys d ++ [k].
Proof.
  induction d as [|[k' v'] d IH]; simpl; [reflexivity|].
  destruct (pystr_eqb k k'); simpl; [reflexivity|].
  unfold keys in *. rewrite IH.
  destruct (str_in k (map fst d)); reflexivity.
Qed.

Lemma dict_set_NoDup (V : Type) (k : pystr) (v : V) (d : list (pystr * V)) :
  NoDup (keys d) -> NoDup (keys (dict_set k v d)).
Proof.
  intros Hnd. rewrite dict_set_keys.
  destruct (str_in k (keys d)) eqn:E; [assumption|].
  apply NoDup_app; [assumption | repeat constructor; intros [] |].
  intros x Hx [<-|[]]. apply str_in_In in Hx. congruence.
Qed.

Lemma dict_set_Forall (V : Type) (Q : V -> Prop) (k : pystr) (v : V)
  (d : list (pystr * V)) :
  Forall (fun it => Q (snd it)) d -> Q v ->
  Forall (fun it => Q (snd it)) (dict_set k v d).
Proof.
  intros Hd Hv. induction Hd as [|[k' v'] d Hk Hd IH]; simpl.
  - repeat constructor. exact Hv.
  - destruct (pystr_eqb k k'); constructor; assumption.
Qed.

(** The keys of the dictionary built by the walk are pairwise
    distinct. *)
Lemma loaded_NoDup `{PyRuntime} (path : pystr) (tree : entry) :
  NoDup (keys (files (self (loaded path tree)))).
Proof.
  apply loaded_preserves with (P := fun o => NoDup (keys (files o))).
  - intros o filepath content Ho _. simpl. now apply dict_set_NoDup.
  - simpl. constructor.
Qed.

(** C8: [_mmap_file] leaves the object alone on a file of size zero, so
    every content and every size the loading walk stores is non-empty,
    and every result of a search on the loaded object refers to a file
    whose mapped content is non-empty. *)
Theorem zero_length_files_never_loaded `{PyRuntime} (path : pystr)
  (tree : entry) :
  (forall filepath w, _mmap_file filepath (Regular []) w = (Return tt, w))
  /\ Forall (fun it => snd it <> []) (files (self (loaded path tree)))
  /\ Forall (fun it => (0 < snd it)%Z) (file_sizes (self (loaded path tree)))
  /\ (forall pattern pf m cs res h,
        returned (grep pattern pf m cs (loaded path tree)) = Some res ->
        In h res ->
        exists content,
          In (hit_path h, content) (files (self (loaded path tree)))
          /\ content <> []).
Proof.
  assert (Hfiles : Forall (fun it : pystr * bytes => snd it <> [])
                     (files (self (loaded path tree)))).
  { apply loaded_preserves
      with (P := fun o => Forall (fun it : pystr * bytes => snd it <> [])
                            (files o)).
    - intros o filepath content Ho Hne. simpl.
      now apply dict_set_Forall with (Q := fun c : bytes => c <> []).
    - constructor. }
  split; [reflexivity|]. split; [exact Hfiles|]. split.
  - apply loaded_preserves
      with (P := fun o => Forall (fun it : pystr * Z => (0 < snd it)%Z)
                            (file_sizes o)).
    + intros o filepath content Ho Hne. simpl.
      apply dict_set_Forall with (Q := fun z : Z => (0 < z)%Z);
        [assumption|].
      unfold len. destruct content; [congruence | simpl; lia].
    + constructor.
  - intros pattern pf m cs res h Hres Hh.
    destruct (grep_returned_cases _ _ _ _ _ Hres) as [(r & E & ->)|[_ ->]].
    + apply In_firstn in Hh.
      apply all_hits_In in Hh. destruct Hh as (content & Hin & _).
      exists content. split; [assumption|].
      rewrite Forall_forall in Hfiles. exact (Hfiles _ Hin).
    + contradiction.
Qed.

(** ** The file classifier *)

Lemma lower_go_keeps_dot `{PyRuntime} (s : pystr) :
  forall before, In DOT s -> In DOT (lower_go before s).
Proof.
  induction s as [|c t IH]; intros before Hin; [contradiction|].
  simpl. apply in_or_app. destruct Hin as [->|Hin].
  - left. simpl. now left.
  - right. now apply IH.
Qed.

Lemma rfind_go_absent (c : N) (s : pystr) :
  forall i acc, ~ In c s -> rfind_go c s i acc = acc.
Proof.
  induction s as [|x t IH]; intros i acc Hnot; simpl; [reflexivity|].
  destruct (N.eqb_spec x c) as [->|Hne].
  - exfalso. apply Hnot. now left.
  - apply IH. intros Hin. apply Hnot. now right.
Qed.

Lemma text_filenames_no_dot (x : pystr) :
  In x text_filenames -> ~ In DOT x.
Proof.
  assert (Hall : forallb (fun y => negb (existsb (N.eqb DOT) y))
                   text_filenames = true) by (vm_compute; reflexivity).
  rewrite forallb_forall in Hall. intros Hx Hdot.
  specialize (Hall x Hx). apply negb_true_iff in Hall.
  assert (Ht : existsb (N.eqb DOT) x = true).
  { apply existsb_exists. exists DOT. split; [assumption | apply N.eqb_refl]. }
  congruence.
Qed.

(** A name that lower-cases to one of the known file names has no
    suffix. *)
Lemma known_name_no_suffix `{PyRuntime} (filepath : pystr) :
  In (str_lower (path_name filepath)) text_filenames ->
  path_suffix filepath = [].
Proof.
  intros Hin. unfold path_suffix, rfind.
  rewrite rfind_go_absent; [reflexivity|].
  intros Hdot. apply (text_filenames_no_dot Hin).
  unfold str_lower. now apply lower_go_keeps_dot.
Qed.

(** C7: [_is_text_file] holds exactly when the lower-cased suffix of
    the path is one of the listed extensions, or the path has no suffix
    and its lower-cased name is one of the ten listed file names; [.env]
    is one of the extensions. *)
Theorem is_text_file_iff `{PyRuntime} (filepath : pystr) :
  (_is_text_file filepath = true <->
   In (str_lower (path_suffix filepath)) text_extensions
   \/ (path_suffix filepath = []
       /\ In (str_lower (path_name filepath)) text_filenames))
  /\ In (of_string ".env") text_extensions
  /\ text_filenames
     = map of_string
         ["makefile"; "dockerfile"; "rakefile"; "gemfile"; "procfile";
          "readme"; "license"; "changelog"; "contributing";
          "authors"]%string.
Proof.
  split; [|split; [apply str_in_In; vm_compute; reflexivity | reflexivity]].
  unfold _is_text_file. rewrite <- !str_in_In.
  destruct (str_in (str_lower (path_suffix filepath)) text_extensions) eqn:E.
  - split; [auto | reflexivity].
  - split.
    + intros Hn. right. split; [|assumption].
      apply known_name_no_suffix. now apply str_in_In.
    + intros [Hx|[_ Hn]]; [discriminate | assumption].
Qed.

(** ** Repeated searches *)


(** [grep_formatted] returns exactly when [grep] does, with the
    rendering of its list. *)
Lemma grep_formatted_returned `{PyRuntime} (pattern : pystr)
  (pf : option pystr) (m : Z) (w : world) :
  returned (grep_formatted pattern pf m w)
  = option_map (format_results (codebase_path (self w)) pattern m)
      (returned (grep pattern pf m true w)).
Proof.
  destruct (grep_reads_only pattern pf m true w) as [_ Es].
  unfold returned, grep_formatted, bind.
  destruct (grep pattern pf m true w) as [[res|e] w']; simpl in *;
    [now rewrite Es | reflexivity].
Qed.


(** ** Patterns that do not compile *)

(** C4, as amended: for a pattern on which the compiler raises
    [re.error], [grep] prints the compiler's message on the standard
    output and returns the empty list, which is what it returns for a
    compiled pattern without matches, and [grep_formatted] then returns
    the text it returns for any search without matches; should the
    message not be writable to the standard output, the exception of
    [print] leaves [grep] instead.  When the encoding or the compiler
    raise anything else (a lone surrogate, a repetition count that is
    too large), that exception leaves [grep] and [grep_formatted]. *)
Theorem grep_invalid_pattern `{PyRuntime} (pattern : pystr)
  (pf : option pystr) (m : Z) (cs : bool) (w : world) :
  (forall e,
      compile_pattern pattern cs = ReError e ->
      (stdout_error (invalid_pattern_line pattern e) = None ->
       grep pattern pf m cs w
       = (Return [], printed w (invalid_pattern_line pattern e))
       /\ (forall pattern' r,
             compile_pattern pattern' cs = Compiled r ->
             all_hits r pf (files (self w)) = [] ->
             returned (grep pattern' pf m cs w)
             = returned (grep pattern pf m cs w))
       /\ (cs = true ->
           grep_formatted pattern pf m w
           = (Return (no_matches pattern),
              printed w (invalid_pattern_line pattern e))))
      /\ (forall e',
            stdout_error (invalid_pattern_line pattern e) = Some e' ->
            grep pattern pf m cs w = (Raise e', w)))
  /\ (forall e,
        compile_pattern pattern cs = CompileRaised e ->
        grep pattern pf m cs w = (Raise e, w)
        /\ (cs = true -> grep_formatted pattern pf m w = (Raise e, w)))
  /\ (forall i c more,
        first_surrogate pattern 0 = Some (i, c, more) ->
        compile_pattern pattern cs
        = CompileRaised (surrogates_not_allowed i c more)).
Proof.
  split; [|split].
  - intros e E. split.
    + intros Hp.
      assert (Eg : grep pattern pf m cs w
                   = (Return [], printed w (invalid_pattern_line pattern e))).
      { rewrite (@grep_error _ pattern pf m cs w e E), Hp. reflexivity. }
      split; [exact Eg|]. split.
      * intros pattern' r E' Hnone. rewrite Eg.
        rewrite (@grep_compiled _ pattern' pf m cs w r E').
        rewrite Hnone. now rewrite firstn_nil.
      * intros ->. unfold grep_formatted, bind. rewrite Eg. reflexivity.
    + intros e' Hp.
      rewrite (@grep_error _ pattern pf m cs w e E), Hp. reflexivity.
  - intros e E.
    assert (Eg : grep pattern pf m cs w = (Raise e, w))
      by now apply grep_raised.
    split; [exact Eg|].
    intros ->. unfold grep_formatted, bind. now rewrite Eg.
  - intros i c more Hs. unfold compile_pattern, encode_utf8.
    now rewrite Hs.
Qed.

(** C4 as stated fails: the pattern [\] does not compile, and both
    [grep] and [grep_formatted] return what they return for the valid
    pattern [zzz], which matches nothing; the message only reaches the
    standard output. *)
Lemma grep_invalid_pattern_looks_empty :
  @compile_pattern rt (of_string "\") true
  = ReError (of_string "bad escape (end of pattern) at position 0")
  /\ returned (@grep rt (of_string "\") None 100 true demo_world) = Some []
  /\ returned (@grep rt (of_string "zzz") None 100 true demo_world) = Some []
  /\ returned (@grep_formatted rt (of_string "\") None 100 demo_world)
     = Some (of_string "No matches found for pattern: \")
  /\ returned (@grep_formatted rt (of_string "zzz") None 100 demo_world)
     = Some (of_string "No matches found for pattern: zzz").
Proof. repeat split; vm_compute; reflexivity. Qed.

Lemma grep_invalid_pattern_witness :
  @grep rt (of_string "\") None 100 true demo_world
  = (Return [],
     printed demo_world
       (invalid_pattern_line (of_string "\")
          (of_string "bad escape (end of pattern) at position 0")))
  /\ (forall pattern' r,
        @compile_pattern rt pattern' true = Compiled r ->
        @all_hits rt r None (files (self demo_world)) = [] ->
        returned (@grep rt pattern' None 100 true demo_world)
        = returned (@grep rt (of_string "\") None 100 true demo_world))
  /\ (true = true ->
      @grep_formatted rt (of_string "\") None 100 demo_world
      = (Return (no_matches (of_string "\")),
         printed demo_world
           (invalid_pattern_line (of_string "\")
              (of_string "bad escape (end of pattern) at position 0")))).
Proof.
  apply (@grep_invalid_pattern rt (of_string "\") None 100 true demo_world).
  - vm_compute. reflexivity.
  - vm_compute. reflexivity.
Defined.

(** A pattern holding a lone surrogate: the error of the encoding
    leaves [grep]. *)
Example grep_lone_surrogate :
  @grep rt [55296%N] None 100 true demo_world
  = (Raise
       (of_string
          "'utf-8' codec can't encode character '\ud800' in position 0: surrogates not allowed"),
     demo_world).
Proof. vm_compute. reflexivity. Qed.

(** ** Decoding *)

Open Scope N_scope.

Ltac bool_to_prop :=
  repeat match goal with
    | H : (_ <? _) = true |- _ => apply N.ltb_lt in H
    | H : (_ <? _) = false |- _ => apply N.ltb_ge in H
    | H : (_ <=? _) = true |- _ => apply N.leb_le in H
    | H : (_ <=? _) = false |- _ => apply N.leb_gt in H
    | H : (_ =? _) = true |- _ => apply N.eqb_eq in H
    | H : (_ =? _) = false |- _ => apply N.eqb_neq in H
    | H : negb _ = true |- _ => apply negb_true_iff in H
    | H : negb _ = false |- _ => apply negb_false_iff in H
    | H : (_ && _)%bool = true |- _ => apply andb_true_iff in H; destruct H
    | H : (_ || _)%bool = false |- _ => apply orb_false_iff in H; destruct H
    | H : (if ?c then _ else _) = false |- _ => destruct c eqn:?
    end.

Lemma is_scalar_true (c : N) :
  is_scalar c = true <-> c < 55296 \/ (57343 < c /\ c < 1114112).
Proof.
  unfold is_scalar. rewrite orb_true_iff, andb_true_iff, !N.ltb_lt. tauto.
Qed.

(** Every code point the decoder gives is an ASCII byte of the input,
    the replacement character, or a scalar value from 128 on. *)
Lemma utf8_replace_Forall (Q : N -> Prop) :
  Q REPLACEMENT ->
  (forall c, 128 <= c -> is_scalar c = true -> Q c) ->
  forall (n : nat) (s : list N),
    (List.length s < n)%nat ->
    Forall (fun b => b < 256) s ->
    (forall b, In b s -> b < 128 -> Q b) ->
    Forall Q (utf8_replace s).
Proof.
  intros Hrepl Hbig. induction n as [|n IH]; intros s Hlen Hbytes Hascii;
    [lia|].
  assert (Htail : forall x t, s = x :: t ->
            Forall Q (utf8_replace t)).
  { intros x t ->. inversion Hbytes; subst. apply IH; simpl in *;
      [lia | assumption | intros; apply Hascii; auto]. }
  destruct s as [|ch s1]; simpl; [constructor|].
  specialize (Htail ch s1 eq_refl).
  assert (Hch : ch < 256) by (inversion Hbytes; assumption).
  assert (Hb1 : Forall (fun b => b < 256) s1) by (inversion Hbytes; assumption).
  assert (Hrec : forall t, (List.length t <= List.length s1)%nat ->
            Forall (fun b => b < 256) t ->
            (forall b, In b t -> In b s1) ->
            Forall Q (utf8_replace t)).
  { intros t Hl Hbt Hsub. apply IH; simpl in *;
      [lia | assumption | intros; apply Hascii; auto]. }
  destruct (ch <? 128) eqn:E1.
  { constructor; [|assumption]. apply Hascii; [now left|]. bool_to_prop. lia. }
  destruct (ch <? 194) eqn:E2; [constructor; assumption|].
  destruct (ch <? 224) eqn:E3.
  { destruct s1 as [|ch2 s2]; [repeat constructor; assumption|].
    destruct (is_continuation ch2) eqn:C2; [|constructor; assumption].
    unfold is_continuation in C2. bool_to_prop.
    constructor.
    - apply Hbig; [lia | apply is_scalar_true; lia].
    - apply Hrec; [simpl; lia | now inversion Hb1 | intros; simpl; auto]. }
  destruct (ch <? 240) eqn:E4.
  { destruct s1 as [|ch2 s2]; [repeat constructor; assumption|].
    destruct (negb (is_continuation ch2)
              || (if ch2 <? 160 then ch =? 224 else ch =? 237))%bool eqn:C2;
      [constructor; assumption|].
    destruct s2 as [|ch3 s3]; [repeat constructor; assumption|].
    destruct (is_continuation ch3) eqn:C3.
    - unfold is_continuation in *. bool_to_prop.
      + constructor.
        * apply Hbig; [lia | apply is_scalar_true; lia].
        * apply Hrec; [simpl; lia | inversion Hb1 as [|? ? ? Hb2]; now inversion Hb2
                      | intros; simpl; auto].
      + constructor.
        * apply Hbig; [lia | apply is_scalar_true; lia].
        * apply Hrec; [simpl; lia | inversion Hb1 as [|? ? ? Hb2]; now inversion Hb2
                      | intros; simpl; auto].
    - constructor; [assumption|].
      apply Hrec; [simpl; lia | now inversion Hb1 | intros; simpl; auto]. }
  destruct (ch <? 245) eqn:E5; [|constructor; assumption].
  destruct s1 as [|ch2 s2]; [repeat constructor; assumption|].
  destruct (negb (is_continuation ch2)
            || (if ch2 <? 144 then ch =? 240 else ch =? 244))%bool eqn:C2;
    [constructor; assumption|].
  destruct s2 as [|ch3 s3]; [repeat constructor; assumption|].
  destruct (negb (is_continuation ch3)) eqn:C3.
  { constructor; [assumption|].
    apply Hrec; [simpl; lia | now inversion Hb1 | intros; simpl; auto]. }
  destruct s3 as [|ch4 s4]; [repeat constructor; assumption|].
  destruct (is_continuation ch4) eqn:C4.
  - assert (Hb4 : Forall (fun b => b < 256) s4).
    { inversion Hb1 as [|? ? ? Hb2]. inversion Hb2 as [|? ? ? Hb3].
      now inversion Hb3. }
    unfold is_continuation in *. bool_to_prop.
    + constructor.
      * apply Hbig; [lia | apply is_scalar_true; lia].
      * apply Hrec; [simpl; lia | assumption | intros; simpl; auto].
    + constructor.
      * apply Hbig; [lia | apply is_scalar_true; lia].
      * apply Hrec; [simpl; lia | assumption | intros; simpl; auto].
  - constructor; [assumption|].
    apply Hrec; [simpl; lia | | intros; simpl; auto].
    inversion Hb1 as [|? ? ? Hb2]. now inversion Hb2.
Qed.

Close Scope N_scope.

Lemma dropwhile_split (A : Type) (f : A -> bool) (l : list A) :
  exists pre,
    l = pre ++ dropwhile f l
    /\ Forall (fun x => f x = true) pre
    /\ (forall x t, dropwhile f l = x :: t -> f x = false).
Proof.
  induction l as [|x l (pre & E & Hpre & Hhead)]; simpl.
  - exists []. repeat split; [constructor | discriminate].
  - destruct (f x) eqn:Hx.
    + exists (x :: pre). simpl. rewrite <- E.
      repeat split; [constructor; assumption | assumption].
    + exists []. repeat split; [constructor|].
      intros y t Ey. inversion Ey; subst. assumption.
Qed.

(** [rstrip] removes a block of characters of [chars] from the end,
    and what it leaves does not end with one of them. *)
Lemma rstrip_split (chars s : pystr) :
  exists suffix,
    s = rstrip chars s ++ suffix
    /\ Forall (fun c => In c chars) suffix
    /\ (forall t c, rstrip chars s = t ++ [c] -> ~ In c chars).
Proof.
  unfold rstrip.
  destruct (dropwhile_split (fun c => existsb (N.eqb c) chars) (rev s))
    as (pre & E & Hpre & Hhead).
  exists (rev pre). split; [|split].
  - rewrite <- rev_app_distr, <- E. symmetry. apply rev_involutive.
  - apply Forall_rev. eapply Forall_impl; [|exact Hpre].
    intros c Hc. apply existsb_exists in Hc. destruct Hc as (x & Hx & Ex).
    apply N.eqb_eq in Ex. now subst.
  - intros t c Et Hin.
    assert (Ed : dropwhile (fun c => existsb (N.eqb c) chars) (rev s)
                 = c :: rev t).
    { rewrite <- (rev_involutive (dropwhile _ (rev s))), Et.
      rewrite rev_app_distr. reflexivity. }
    specialize (Hhead _ _ Ed).
    assert (Ht : existsb (N.eqb c) chars = true).
    { apply existsb_exists. exists c. split; [assumption | apply N.eqb_refl]. }
    congruence.
Qed.

Lemma bytes_below_256 (b : bytes) :
  Forall (fun n => (n < 256)%N) (map N_of_ascii b).
Proof.
  apply Forall_forall. intros n Hn. apply in_map_iff in Hn.
  destruct Hn as (a & <- & _). apply N_ascii_bounded.
Qed.

(** Decoding gives scalar values only. *)
Lemma decode_replace_scalar (b : bytes) :
  Forall (fun c => is_scalar c = true) (decode_replace b).
Proof.
  unfold decode_replace.
  apply utf8_replace_Forall with (n := S (List.length (map N_of_ascii b)));
    [reflexivity | auto | lia | apply bytes_below_256 |].
  intros c _ Hc. apply is_scalar_true. lia.
Qed.

(** Decoding a line without a newline byte gives no newline
    character. *)
Lemma decode_replace_no_LF (b : bytes) :
  Forall (fun x => is_LF x = false) b ->
  Forall (fun c => c <> LF) (decode_replace b).
Proof.
  intros Hb. unfold decode_replace.
  apply utf8_replace_Forall with (n := S (List.length (map N_of_ascii b)));
    [discriminate | | lia | apply bytes_below_256 |].
  - intros c Hc _ E. subst c. exact (Hc eq_refl).
  - intros c Hin _ E. subst c. apply in_map_iff in Hin.
    destruct Hin as (a & Ea & Ha).
    rewrite Forall_forall in Hb. specialize (Hb a Ha).
    assert (a = byte_LF).
    { rewrite <- (ascii_N_embedding a), Ea. reflexivity. }
    subst a. unfold is_LF in Hb. rewrite Ascii.eqb_refl in Hb. discriminate.
Qed.

(** ** Decoding what was encoded *)

Open Scope N_scope.

Ltac divmod c k :=
  let q := fresh "q" in
  let r := fresh "r" in
  pose proof (N.div_mod c k ltac:(discriminate));
  pose proof (N.mod_lt c k ltac:(discriminate));
  set (q := c / k) in *; set (r := c mod k) in *; clearbody q r.

Lemma is_continuation_true (b : N) :
  128 <= b -> b <= 191 -> is_continuation b = true.
Proof.
  intros H1 H2. unfold is_continuation.
  apply andb_true_iff. split; apply N.leb_le; assumption.
Qed.

(** One step of the decoder on a lead byte of a given class. *)
Lemma utf8_replace_lead2 (b1 : N) (s1 : list N) :
  194 <= b1 -> b1 < 224 ->
  utf8_replace (b1 :: s1)
  = match s1 with
    | [] => [REPLACEMENT]
    | ch2 :: s2 =>
        if is_continuation ch2
        then ((b1 - 192) * 64 + (ch2 - 128)) :: utf8_replace s2
        else REPLACEMENT :: utf8_replace s1
    end.
Proof.
  intros H1 H2. simpl.
  rewrite (proj2 (N.ltb_ge b1 128)) by lia.
  rewrite (proj2 (N.ltb_ge b1 194)) by lia.
  rewrite (proj2 (N.ltb_lt b1 224)) by lia.
  destruct s1; reflexivity.
Qed.

Lemma utf8_replace_lead3 (b1 : N) (s1 : list N) :
  224 <= b1 -> b1 < 240 ->
  utf8_replace (b1 :: s1)
  = match s1 with
    | [] => [REPLACEMENT]
    | ch2 :: s2 =>
        if (negb (is_continuation ch2)
            || (if ch2 <? 160 then b1 =? 224 else b1 =? 237))%bool
        then REPLACEMENT :: utf8_replace s1
        else
          match s2 with
          | [] => [REPLACEMENT]
          | ch3 :: s3 =>
              if is_continuation ch3
              then ((b1 - 224) * 4096 + (ch2 - 128) * 64 + (ch3 - 128))
                   :: utf8_replace s3
              else REPLACEMENT :: utf8_replace s2
          end
    end.
Proof.
  intros H1 H2. simpl.
  rewrite (proj2 (N.ltb_ge b1 128)) by lia.
  rewrite (proj2 (N.ltb_ge b1 194)) by lia.
  rewrite (proj2 (N.ltb_ge b1 224)) by lia.
  rewrite (proj2 (N.ltb_lt b1 240)) by lia.
  destruct s1; reflexivity.
Qed.

Lemma utf8_replace_lead4 (b1 : N) (s1 : list N) :
  240 <= b1 -> b1 < 245 ->
  utf8_replace (b1 :: s1)
  = match s1 with
    | [] => [REPLACEMENT]
    | ch2 :: s2 =>
        if (negb (is_continuation ch2)
            || (if ch2 <? 144 then b1 =? 240 else b1 =? 244))%bool
        then REPLACEMENT :: utf8_replace s1
        else
          match s2 with
          | [] => [REPLACEMENT]
          | ch3 :: s3 =>
              if negb (is_continuation ch3)
              then REPLACEMENT :: utf8_replace s2
              else
                match s3 with
                | [] => [REPLACEMENT]
                | ch4 :: s4 =>
                    if is_continuation ch4
                    then ((b1 - 240) * 262144 + (ch2 - 128) * 4096
                          + (ch3 - 128) * 64 + (ch4 - 128))
                         :: utf8_replace s4
                    else REPLACEMENT :: utf8_replace s3
                end
          end
    end.
Proof.
  intros H1 H2. simpl.
  rewrite (proj2 (N.ltb_ge b1 128)) by lia.
  rewrite (proj2 (N.ltb_ge b1 194)) by lia.
  rewrite (proj2 (N.ltb_ge b1 224)) by lia.
  rewrite (proj2 (N.ltb_ge b1 240)) by lia.
  rewrite (proj2 (N.ltb_lt b1 245)) by lia.
  destruct s1; reflexivity.
Qed.

(** The second byte of a three-byte or four-byte sequence is in the
    range its lead byte asks for. *)
Lemma second_byte_ok (b1 b2 lo hi_lead lo_lead : N) :
  128 <= b2 -> b2 <= 191 ->
  (b1 = lo_lead -> lo <= b2) ->
  (b1 = hi_lead -> b2 < lo) ->
  (negb (is_continuation b2)
   || (if b2 <? lo then b1 =? lo_lead else b1 =? hi_lead))%bool = false.
Proof.
  intros H1 H2 Hlo Hhi. rewrite is_continuation_true by assumption. simpl.
  destruct (b2 <? lo) eqn:E; apply N.eqb_neq; intros ->.
  - apply N.ltb_lt in E. specialize (Hlo eq_refl). lia.
  - apply N.ltb_ge in E. specialize (Hhi eq_refl). lia.
Qed.

Lemma utf8_replace_encode_cp (c : N) (rest : list N) :
  is_scalar c = true ->
  utf8_replace (utf8_encode_cp c ++ rest) = c :: utf8_replace rest.
Proof.
  intros Hs. apply is_scalar_true in Hs. unfold utf8_encode_cp.
  destruct (c <? 128) eqn:E1.
  { simpl. now rewrite E1. }
  destruct (c <? 2048) eqn:E2.
  { bool_to_prop. divmod c 64. cbn [app].
    rewrite utf8_replace_lead2 by lia.
    rewrite is_continuation_true by lia. f_equal. lia. }
  destruct (c <? 65536) eqn:E3.
  { bool_to_prop.
    replace (c / 4096) with (c / 64 / 64)
      by (rewrite N.Div0.div_div; reflexivity).
    divmod (c / 64) 64. divmod c 64. cbn [app].
    rewrite utf8_replace_lead3 by lia.
    rewrite (@second_byte_ok _ _ 160 237 224) by lia.
    rewrite is_continuation_true by lia. f_equal. lia. }
  bool_to_prop.
  replace (c / 262144) with (c / 64 / 64 / 64)
    by (rewrite !N.Div0.div_div; reflexivity).
  replace (c / 4096) with (c / 64 / 64)
    by (rewrite N.Div0.div_div; reflexivity).
  divmod (c / 64 / 64) 64. divmod (c / 64) 64. divmod c 64. cbn [app].
  rewrite utf8_replace_lead4 by lia.
  rewrite (@second_byte_ok _ _ 144 244 240) by lia.
  rewrite (is_continuation_true (b := 128 + r0)) by lia. cbn [negb].
  rewrite is_continuation_true by lia. f_equal. lia.
Qed.

Lemma utf8_encode_cp_bytes (c : N) :
  is_scalar c = true -> Forall (fun b => b < 256) (utf8_encode_cp c).
Proof.
  intros Hs. apply is_scalar_true in Hs. unfold utf8_encode_cp.
  destruct (c <? 128) eqn:E1; [bool_to_prop; repeat constructor; lia|].
  destruct (c <? 2048) eqn:E2.
  { bool_to_prop. divmod c 64. repeat constructor; lia. }
  destruct (c <? 65536) eqn:E3.
  { bool_to_prop.
    replace (c / 4096) with (c / 64 / 64)
      by (rewrite N.Div0.div_div; reflexivity).
    divmod (c / 64) 64. divmod c 64. repeat constructor; lia. }
  bool_to_prop.
  replace (c / 262144) with (c / 64 / 64 / 64)
    by (rewrite !N.Div0.div_div; reflexivity).
  replace (c / 4096) with (c / 64 / 64)
    by (rewrite N.Div0.div_div; reflexivity).
  divmod (c / 64 / 64) 64. divmod (c / 64) 64. divmod c 64.
  repeat constructor; lia.
Qed.

Lemma scalar_not_surrogate (c : N) :
  is_scalar c = true -> is_surrogate c = false.
Proof.
  intros Hc. apply is_scalar_true in Hc. unfold is_surrogate.
  apply andb_false_iff.
  destruct Hc as [Hc|[Hc _]]; [left; apply N.leb_gt | right; apply N.leb_gt];
    lia.
Qed.

(** A string of scalar values can be encoded. *)
Lemma encode_scalars (s : pystr) :
  Forall (fun c => is_scalar c = true) s ->
  encode_utf8 s = Return (map ascii_of_N (flat_map utf8_encode_cp s)).
Proof.
  intros Hs. unfold encode_utf8.
  assert (E : forall i, first_surrogate s i = None).
  { induction Hs as [|c s Hc _ IH]; intros i; simpl; [reflexivity|].
    now rewrite (scalar_not_surrogate c Hc). }
  now rewrite E.
Qed.

(** Decoding is the inverse of encoding on strings of scalar values:
    well-formed UTF-8 is decoded to the text it encodes. *)
Lemma decode_encode (s : pystr) (b : bytes) :
  Forall (fun c => is_scalar c = true) s ->
  encode_utf8 s = Return b ->
  decode_replace b = s.
Proof.
  intros Hs Eb. rewrite (encode_scalars Hs) in Eb.
  inversion Eb; subst b. clear Eb. unfold decode_replace.
  rewrite map_map.
  assert (E : map (fun x => N_of_ascii (ascii_of_N x)) (flat_map utf8_encode_cp s)
              = flat_map utf8_encode_cp s).
  { induction Hs as [|c s Hc Hs IH]; simpl; [reflexivity|].
    rewrite map_app, IH. f_equal.
    pose proof (utf8_encode_cp_bytes c Hc) as Hb.
    induction Hb as [|b l Hb _ IHl]; simpl; [reflexivity|].
    rewrite IHl. f_equal. now apply N_ascii_embedding. }
  rewrite E. clear E.
  induction Hs as [|c s Hc Hs IH]; simpl; [reflexivity|].
  rewrite utf8_replace_encode_cp by assumption. now rewrite IH.
Qed.

Close Scope N_scope.

(** ** The text of a reported line *)

Lemma Forall_CR_repeat (l : pystr) :
  Forall (fun c => c = CR) l -> l = repeat CR (List.length l).
Proof.
  induction 1 as [|c l -> _ IH]; simpl; [reflexivity | now rewrite <- IH].
Qed.

(** C6, as amended: the text reported for a matching line is the
    line's bytes decoded as UTF-8 with the ill-formed parts replaced by
    U+FFFD, a total function that gives scalar values only and inverts
    the encoder, from which every trailing carriage return is removed:
    the text does not end with a carriage return or newline, and the
    decoded line is the text followed by carriage returns only. *)
Theorem grep_line_text `{PyRuntime} (pattern : pystr) (pf : option pystr)
  (m : Z) (cs : bool) (w : world) (r : regex) (res : list hit)
  (path : pystr) (L : Z) (txt : pystr) :
  compile_pattern pattern cs = Compiled r ->
  returned (grep pattern pf m cs w) = Some res ->
  In (path, L, txt) res ->
  exists content line,
    In (path, content) (files (self w))
    /\ line_at content L = Some line
    /\ re_search r line = true
    /\ txt = rstrip [CR; LF] (decode_replace line)
    /\ Forall (fun c => is_scalar c = true) (decode_replace line)
    /\ (forall s, Forall (fun c => is_scalar c = true) s ->
                  encode_utf8 s = Return line -> decode_replace line = s)
    /\ (exists k, decode_replace line = txt ++ repeat CR k)
    /\ (forall t c, txt = t ++ [c] -> c <> CR /\ c <> LF).
Proof.
  intros Hc Hres Hin.
  rewrite (@grep_compiled _ pattern pf m cs w r Hc) in Hres.
  inversion Hres; subst res. apply In_firstn in Hin.
  apply all_hits_In in Hin. simpl in Hin.
  destruct Hin as (content & Hfile & _ & Hfh).
  apply file_hits_In in Hfh. destruct Hfh as (_ & Hle & line & E & Hs & Htxt).
  exists content, line.
  assert (Hline : Forall (fun b => is_LF b = false) line).
  { pose proof (split_on_pieces is_LF content) as Hp.
    rewrite Forall_forall in Hp. apply Hp. eapply nth_error_In; eassumption. }
  destruct (rstrip_split [CR; LF] (decode_replace line))
    as (suffix & Esplit & Hsuffix & Hend).
  rewrite <- Htxt in Esplit, Hend.
  repeat split; try assumption.
  - unfold line_at. destruct (Z.leb_spec 1 L); [assumption | lia].
  - apply decode_replace_scalar.
  - intros s Hsc Es. now apply (decode_encode Hsc).
  - exists (List.length suffix). rewrite Esplit at 1. f_equal.
    apply Forall_CR_repeat.
    pose proof (decode_replace_no_LF Hline) as Hno.
    rewrite Esplit in Hno. apply Forall_app in Hno. destruct Hno as [_ Hno].
    rewrite Forall_forall in *. intros c Hc'.
    destruct (Hsuffix c Hc') as [<-|[<-|[]]]; [reflexivity|].
    exfalso. now apply (Hno LF Hc').
  - intros ->. apply (Hend t CR H0). simpl. auto.
  - intros ->. apply (Hend t LF H0). simpl. auto.
Qed.

(** C6 as stated fails: of the line [a] followed by two carriage
    returns, [grep] reports [a], where removing a single trailing
    character leaves [a] and one carriage return. *)
Lemma grep_strips_every_CR :
  @compile_pattern rt (of_string "a") true
  = Compiled (letter_regex 97 true)
  /\ line_at two_cr_line 1 = Some two_cr_line
  /\ @re_search rt (letter_regex 97 true) two_cr_line = true
  /\ returned (@grep rt (of_string "a") None 100 true two_cr_world)
     = Some [(of_string "/r/f.txt", 1%Z, [97%N])]
  /\ strip_one_newline (decode_replace two_cr_line) = [97%N; CR]
  /\ [97%N] <> strip_one_newline (decode_replace two_cr_line).
Proof.
  repeat split; try (vm_compute; reflexivity).
  vm_compute. discriminate.
Qed.

Lemma grep_line_text_witness :
  exists content line,
    In (of_string "/r/f.txt", content) (files (self two_cr_world))
    /\ line_at content 1 = Some line
    /\ @re_search rt (letter_regex 97 true) line = true
    /\ [97%N] = rstrip [CR; LF] (decode_replace line)
    /\ Forall (fun c => is_scalar c = true) (decode_replace line)
    /\ (forall s, Forall (fun c => is_scalar c = true) s ->
                  encode_utf8 s = Return line -> decode_replace line = s)
    /\ (exists k, decode_replace line = [97%N] ++ repeat CR k)
    /\ (forall t c, [97%N] = t ++ [c] -> c <> CR /\ c <> LF).
Proof.
  apply (@grep_line_text rt (of_string "a") None 100 true two_cr_world
           (letter_regex 97 true)
           [(of_string "/r/f.txt", 1%Z, [97%N])]).
  - vm_compute. reflexivity.
  - vm_compute. reflexivity.
  - left. reflexivity.
Defined.

(** ** The formatted output *)











(** ** Case sensitivity of the formatted search *)

Section Extensional.

Context `{PyRuntime}.
Variables r1 r2 : regex.
Hypothesis same_search : forall line, re_search r1 line = re_search r2 line.



End Extensional.







(** ** The model at work *)

Example load_demo_files :
  files (self demo_world)
  = [(of_string "/repo/z.txt", text ["Hello World"; "Foo Bar"; ""]%string);
     (of_string "/repo/a/b.txt", text ["hello"]%string)].
Proof. vm_compute. reflexivity. Qed.

Example load_demo_warnings :
  stdout demo_world
  = [of_string
       "Warning: Skipping /repo/gone.md: [Errno 2] No such file or directory: '/repo/gone.md'";
     of_string
       "Warning: Skipping /repo/pipe.txt: Cannot mmap: [Errno 19] No such device"].
Proof. vm_compute. reflexivity. Qed.

Example classify_names :
  map (@_is_text_file rt)
    (map of_string
       ["/a/b/FOO.Py"; ".env"; "conf/prod.env"; "x/Makefile"; "x/readme.";
        "archive.tar.gz"; "LICENSE"; "notes.TXT"; "src/"]%string)
  = [true; false; true; true; false; false; true; true; false].
Proof. vm_compute. reflexivity. Qed.

Example scenario_s1 :
  returned (@grep_formatted rt (of_string "Hello") None 100
              (@loaded rt (of_string "/repo") s1_tree))
  = Some (of_string "a.txt:1:Hello World" ++ [LF]
          ++ of_string "--- Found 1 matches ---").
Proof. vm_compute. reflexivity. Qed.

Example path_filter_keeps_matching_paths :
  returned (@grep rt (of_string "o") (Some (of_string "/a/")) 100 true
              demo_world)
  = Some [(of_string "/repo/a/b.txt", 1%Z, of_string "hello")].
Proof. vm_compute. reflexivity. Qed.

Example decode_ill_formed :
  decode_replace
    (map ascii_of_N [97; 228; 184; 173; 240; 159; 152; 13; 255; 192; 128]%N)
  = [97; 20013; 65533; 13; 65533; 65533; 65533]%N.
Proof. vm_compute. reflexivity. Qed.

Example relpath_above_root :
  @relpath rt (of_string "/other/f.txt") (of_string "/repo/sub")
  = Some (of_string "../../other/f.txt").
Proof. vm_compute. reflexivity. Qed.

(** * More about the loading walk *)

Lemma after_load_nothing (w : world) : after_load w [] [] = w.
Proof.
  destruct w as [o out]. unfold after_load. simpl. now rewrite app_nil_r.
Qed.

Lemma after_load_twice (w : world) (l1 l2 : list (pystr * bytes))
  (s1 s2 : list pystr) :
  after_load (after_load w l1 s1) l2 s2 = after_load w (l1 ++ l2) (s1 ++ s2).
Proof.
  unfold after_load, store_all. simpl.
  now rewrite fold_left_app, app_assoc.
Qed.

Lemma after_load_stored (w : world) (p : pystr) (c : bytes)
  (l : list (pystr * bytes)) (ws : list pystr) :
  after_load {| self := stored (self w) p c; stdout := stdout w |} l ws
  = after_load w ((p, c) :: l) ws.
Proof. reflexivity. Qed.

Lemma stored_files_app (a b : list load_event) :
  stored_files (a ++ b) = stored_files a ++ stored_files b.
Proof. unfold stored_files. apply flat_map_app. Qed.

Lemma warnings_app (a b : list load_event) :
  warnings (a ++ b) = warnings a ++ warnings b.
Proof. unfold warnings. apply flat_map_app. Qed.

Lemma stored_files_In (evs : list load_event) (p : pystr) (c : bytes) :
  In (p, c) (stored_files evs) <-> In (Stored p c) evs.
Proof.
  unfold stored_files. rewrite in_flat_map. split.
  - intros ([p' c'|l] & Hin & Hx); simpl in Hx; [|contradiction].
    destruct Hx as [E|[]]. now inversion E; subst.
  - intros Hin. exists (Stored p c). split; [assumption | now left].
Qed.

Section LoadEvents.

Context `{PyRuntime}.

Lemma run_events_app (a b : list load_event) :
  forall w, run_events (a ++ b) w = (run_events a ;;; run_events b) w.
Proof.
  induction a as [|[p c|l] a IH]; intros w; simpl.
  - reflexivity.
  - unfold bind, get_self, set_self. rewrite IH. reflexivity.
  - unfold bind. destruct (print l w) as [[[]|e] w']; [|reflexivity].
    rewrite IH. reflexivity.
Qed.

Lemma load_file_events (root : pystr) (e : entry) (w : world) :
  load_file root e w = run_events (file_event root e) w.
Proof.
  destruct e as [filename st|dirname sub]; [|reflexivity].
  unfold load_file, file_event.
  destruct (_is_text_file (path_join root filename));
    [|reflexivity].
  cbn [negb].
  destruct st as [content|msg|size msg]; unfold try_except, _mmap_file.
  - destruct (len content =? 0)%Z; reflexivity.
  - cbn [raise run_events]. unfold bind, ret.
    now destruct (print _ w) as [[[]|e] w'].
  - destruct (size =? 0)%Z; [reflexivity|].
    cbn [raise run_events]. unfold bind, ret.
    now destruct (print _ w) as [[[]|e] w'].
Qed.

Lemma bind_ext (m m' k k' : py unit) (w : world) :
  m w = m' w -> (forall w', k w' = k' w') -> (m ;;; k) w = (m' ;;; k') w.
Proof.
  intros Em Ek. unfold bind. rewrite Em.
  destruct (m' w) as [[[]|e] w']; [apply Ek | reflexivity].
Qed.

Lemma for_each_load_file_events (root : pystr) (children : list entry) :
  forall w,
    for_each children (load_file root) w
    = run_events (flat_map (file_event root) children) w.
Proof.
  induction children as [|c rest IH]; intros w; simpl; [reflexivity|].
  rewrite run_events_app.
  apply bind_ext; [apply load_file_events | exact IH].
Qed.

(** The walk carries out, in order, the events of the entries it
    meets. *)
Lemma load_walk_events (e : entry) :
  forall root w,
    load_walk root e w = run_events (walk_collect file_event root e) w.
Proof.
  induction e as [name st|name children IH] using entry_tree_ind;
    intros root w; simpl; [reflexivity|].
  rewrite run_events_app.
  apply bind_ext; [apply for_each_load_file_events|].
  clear w. induction IH as [|c rest Hc _ IHrest]; intros w.
  - reflexivity.
  - destruct c as [fname st|dirname sub]; [apply IHrest|].
    rewrite run_events_app. apply bind_ext; [|exact IHrest].
    destruct (_should_skip_directory dirname); [reflexivity | apply Hc].
Qed.

(** Events whose warnings can all be printed are all carried out. *)
Lemma run_events_printable (evs : list load_event) :
  Forall printable (warnings evs) ->
  forall w,
    run_events evs w
    = (Return tt, after_load w (stored_files evs) (warnings evs)).
Proof.
  induction evs as [|[p c|l] evs IH]; intros Hp w; simpl.
  - now rewrite after_load_nothing.
  - unfold bind at 1 2. cbn [get_self set_self]. rewrite (IH Hp).
    reflexivity.
  - simpl in Hp. inversion Hp as [|? ? Hl Hrest]; subst.
    unfold bind, print. rewrite Hl. rewrite (IH Hrest).
    unfold after_load. simpl. now rewrite <- app_assoc.
Qed.

(** A warning that cannot be printed ends the events: the exception of
    [print] leaves with the world as it was before that warning. *)
Lemma run_events_abort (pre post : list load_event) (l e : pystr)
  (w : world) :
  Forall printable (warnings pre) ->
  stdout_error l = Some e ->
  run_events (pre ++ Warned l :: post) w
  = (Raise e, after_load w (stored_files pre) (warnings pre)).
Proof.
  intros Hp Hl. rewrite run_events_app. unfold bind.
  rewrite (run_events_printable _ Hp). simpl.
  unfold bind, print. now rewrite Hl.
Qed.

(** However the events end, what was done is a prefix of them. *)
Lemma run_events_prefix (evs : list load_event) :
  forall w,
    exists pre post,
      evs = pre ++ post
      /\ snd (run_events evs w)
         = after_load w (stored_files pre) (warnings pre).
Proof.
  induction evs as [|[p c|l] evs IH]; intros w; simpl.
  - exists [], []. split; [reflexivity | now rewrite after_load_nothing].
  - unfold bind at 1 2. cbn [get_self set_self].
    destruct (IH {| self := stored (self w) p c; stdout := stdout w |})
      as (pre & post & E & Hs).
    exists (Stored p c :: pre), post. split; [now rewrite E|].
    rewrite Hs. reflexivity.
  - unfold bind, print. destruct (stdout_error l) as [e|].
    + exists [], (Warned l :: evs).
      split; [reflexivity | simpl; now rewrite after_load_nothing].
    + destruct (IH {| self := self w; stdout := stdout w ++ [l] |})
        as (pre & post & E & Hs).
      exists (Warned l :: pre), post. split; [now rewrite E|].
      rewrite Hs. unfold after_load. simpl. now rewrite <- app_assoc.
Qed.

End LoadEvents.


Lemma store_all_files (l : list (pystr * bytes)) :
  forall o,
    files (store_all o l)
    = fold_left (fun d it => dict_set (fst it) (snd it) d) l (files o).
Proof.
  unfold store_all. induction l as [|it l IH]; intros o; simpl;
    [reflexivity|].
  now rewrite IH.
Qed.

Lemma store_all_path (l : list (pystr * bytes)) :
  forall o, codebase_path (store_all o l) = codebase_path o.
Proof.
  unfold store_all. induction l as [|it l IH]; intros o; simpl;
    [reflexivity|].
  now rewrite IH.
Qed.




(** X2: the walk prints one [Warning: Skipping] line for each text
    file whose size cannot be read or that cannot be mapped, in the
    order of the walk, and nothing else; a file that is not a text
    file, or is empty, is passed over in silence.  At the first warning
    that cannot be written to the standard output the exception of
    [print] leaves [_load_codebase]: what the walk would have met after
    that file is neither stored nor printed. *)
Theorem load_codebase_warnings `{PyRuntime} (path : pystr) (tree : entry) :
  (Forall printable (warnings (walk_collect file_event path tree)) ->
   stdout (loaded path tree) = warnings (walk_collect file_event path tree))
  /\ (forall pre l post e w,
        codebase_path (self w) = path ->
        walk_collect file_event path tree = pre ++ Warned l :: post ->
        Forall printable (warnings pre) ->
        stdout_error l = Some e ->
        _load_codebase tree w
        = (Raise e, after_load w (stored_files pre) (warnings pre)))
  /\ (forall root name content,
        warnings (file_event root (EFile name (Regular content))) = [])
  /\ (forall root name size msg,
        _is_text_file (path_join root name) = true -> size <> 0%Z ->
        warnings (file_event root (EFile name (MapError size msg)))
        = [of_string "Warning: Skipping " ++ path_join root name
           ++ of_string ": Cannot mmap: " ++ msg])
  /\ (forall root name msg,
        _is_text_file (path_join root name) = true ->
        warnings (file_event root (EFile name (StatError msg)))
        = [of_string "Warning: Skipping " ++ path_join root name
           ++ of_string ": " ++ msg])
  /\ (forall root name st,
        _is_text_file (path_join root name) = false ->
        warnings (file_event root (EFile name st)) = [])
  /\ (forall root name msg,
        warnings (file_event root (EFile name (MapError 0 msg))) = []).
Proof.
  split; [|split; [|split; [|split; [|split; [|split]]]]].
  - intros Hp. unfold loaded, _load_codebase, bind, get_self.
    rewrite load_walk_events. cbn [new_world self codebase_path].
    now rewrite (run_events_printable _ Hp).
  - intros pre l post e w <- E Hp Hl.
    unfold _load_codebase, bind, get_self.
    rewrite load_walk_events, E. now apply run_events_abort.
  - intros root name content. unfold file_event.
    destruct (_is_text_file (path_join root name)); [|reflexivity].
    now destruct (len content =? 0)%Z.
  - intros root name size msg Ht Hs. unfold file_event. rewrite Ht.
    destruct (Z.eqb_spec size 0); [contradiction|].
    unfold warnings. cbn [flat_map]. rewrite app_nil_r.
    change (of_string ": Cannot mmap: ")
      with (of_string ": " ++ of_string "Cannot mmap: ").
    now rewrite <- !app_assoc.
  - intros root name msg Ht. unfold file_event. now rewrite Ht.
  - intros root name st Ht. unfold file_event. now rewrite Ht.
  - intros root name msg. unfold file_event.
    now destruct (_is_text_file (path_join root name)).
Qed.

Lemma load_codebase_warnings_witness :
  @_load_codebase rt escaped_tree (new_world (of_string "/repo"))
  = (Raise (of_string "'utf-8' codec can't encode character '\udc80' in position 24: surrogates not allowed"),
     after_load (new_world (of_string "/repo"))
       (stored_files
          [Stored (of_string "/repo/a.py") (text ["x = 1"]%string)])
       (warnings
          [Stored (of_string "/repo/a.py") (text ["x = 1"]%string)])).
Proof.
  apply (proj1 (proj2 (@load_codebase_warnings rt (of_string "/repo")
                         escaped_tree))
           [Stored (of_string "/repo/a.py") (text ["x = 1"]%string)]
           (of_string "Warning: Skipping /repo/" ++ [56448%N]
            ++ of_string ".txt: [Errno 13] Permission denied")
           [Stored (of_string "/repo/b.py") (text ["y = 2"]%string)]).
  - reflexivity.
  - vm_compute. reflexivity.
  - constructor.
  - vm_compute. reflexivity.
Defined.

Lemma dict_set_map_values (V W : Type) (f : V -> W) (k : pystr) (v : V)
  (d : list (pystr * V)) :
  map (fun it => (fst it, f (snd it))) (dict_set k v d)
  = dict_set k (f v) (map (fun it => (fst it, f (snd it))) d).
Proof.
  induction d as [|[k' v'] d IH]; simpl; [reflexivity|].
  destruct (pystr_eqb k k'); simpl; [reflexivity | now rewrite IH].
Qed.

Lemma loaded_sizes_map `{PyRuntime} (path : pystr) (tree : entry) :
  file_sizes (self (loaded path tree))
  = map (fun it => (fst it, len (snd it))) (files (self (loaded path tree))).
Proof.
  apply loaded_preserves
    with (P := fun o => file_sizes o
                        = map (fun it => (fst it, len (snd it))) (files o)).
  - intros o filepath content Ho _. simpl.
    rewrite dict_set_map_values with (f := fun c : bytes => len c).
    now rewrite Ho.
  - reflexivity.
Qed.

(** X3: after loading, [file_sizes] has the keys of [files] in the same
    order, and the size recorded for a path is the length of the
    content mapped for it. *)
Theorem loaded_sizes_match_contents `{PyRuntime} (path : pystr)
  (tree : entry) :
  keys (file_sizes (self (loaded path tree)))
  = keys (files (self (loaded path tree)))
  /\ forall k size content,
       In (k, size) (file_sizes (self (loaded path tree))) ->
       In (k, content) (files (self (loaded path tree))) ->
       size = len content.
Proof.
  pose proof (loaded_sizes_map path tree) as E. split.
  - rewrite E. unfold keys. rewrite map_map. reflexivity.
  - intros k size content Hs Hc.
    assert (Hs' : In (k, len content) (file_sizes (self (loaded path tree)))).
    { rewrite E. apply in_map_iff. exists (k, content). auto. }
    eapply dict_value_unique; [|exact Hs|exact Hs'].
    rewrite E. unfold keys. rewrite map_map. simpl.
    apply (loaded_NoDup path tree).
Qed.

Lemma fold_left_add_shift (l : list Z) :
  forall acc : Z, fold_left Z.add l acc = (acc + fold_left Z.add l 0)%Z.
Proof.
  induction l as [|x l IH]; intros acc; simpl; [lia|].
  rewrite (IH (acc + x)%Z), (IH x). lia.
Qed.

Lemma sum_at_least_count (l : list Z) :
  Forall (fun z => (0 < z)%Z) l ->
  (Z.of_nat (List.length l) <= fold_left Z.add l 0)%Z.
Proof.
  induction 1 as [|x l Hx _ IH]; simpl; [lia|].
  rewrite fold_left_add_shift. lia.
Qed.

(** X4: the integer entries of [get_stats] on a loaded object:
    [total_size_bytes] is the sum of the lengths of the mapped contents,
    and it is at least [num_files], every mapped file holding a byte. *)
Theorem get_stats_counts `{PyRuntime} (path : pystr) (tree : entry) :
  stats_total_size_bytes (self (loaded path tree))
  = fold_left Z.add
      (map (fun it => len (snd it)) (files (self (loaded path tree)))) 0%Z
  /\ (stats_num_files (self (loaded path tree))
      <= stats_total_size_bytes (self (loaded path tree)))%Z
  /\ (stats_num_files (self (loaded path tree)) = 0%Z <->
      files (self (loaded path tree)) = []).
Proof.
  assert (Hsizes : Forall (fun it : pystr * Z => (0 < snd it)%Z)
                     (file_sizes (self (loaded path tree)))).
  { apply loaded_preserves
      with (P := fun o => Forall (fun it : pystr * Z => (0 < snd it)%Z)
                            (file_sizes o)).
    - intros o filepath content Ho Hne. simpl.
      apply dict_set_Forall with (Q := fun z : Z => (0 < z)%Z);
        [assumption|].
      unfold len. destruct content; [congruence | simpl; lia].
    - constructor. }
  unfold stats_total_size_bytes, stats_num_files.
  pose proof (loaded_sizes_map path tree) as E.
  split; [|split].
  - rewrite E, map_map. reflexivity.
  - assert (Hl : List.length (files (self (loaded path tree)))
                 = List.length (map snd (file_sizes (self (loaded path tree))))).
    { rewrite E, !length_map. reflexivity. }
    unfold len. rewrite Hl. apply sum_at_least_count.
    apply Forall_map. exact Hsizes.
  - unfold len. destruct (files (self (loaded path tree)));
      simpl; split; try reflexivity; try discriminate; lia.
Qed.

Lemma walk_collect_Forall (A : Type) (f : pystr -> entry -> list A)
  (Q : A -> Prop) :
  (forall root e, Forall Q (f root e)) ->
  forall e root, Forall Q (walk_collect f root e).
Proof.
  intros Hf. induction e as [name st|name children IH] using entry_tree_ind;
    intros root; simpl; [constructor|].
  apply Forall_app. split.
  - apply Forall_forall. intros x Hx. apply in_flat_map in Hx.
    destruct Hx as (c & _ & Hx). specialize (Hf root c).
    rewrite Forall_forall in Hf. now apply Hf.
  - induction IH as [|c rest Hc _ IHrest]; [constructor|].
    destruct c as [fname st|dirname sub]; [exact IHrest|].
    apply Forall_app. split; [|exact IHrest].
    destruct (_should_skip_directory dirname); [constructor | apply Hc].
Qed.

Lemma stored_keys_origin (l : list (pystr * bytes)) :
  forall (d : list (pystr * bytes)) (k : pystr),
    In k (keys (fold_left (fun d it => dict_set (fst it) (snd it) d) l d)) ->
    In k (keys d) \/ In k (map fst l).
Proof.
  induction l as [|[k0 v0] l IH]; intros d k Hin; simpl in *; [now left|].
  apply IH in Hin. destruct Hin as [Hin|Hin]; [|now right; right].
  rewrite dict_set_keys in Hin.
  destruct (str_in k0 (keys d)); [now left|].
  apply in_app_or in Hin. destruct Hin as [Hin|[<-|[]]]; [now left|].
  right. now left.
Qed.

(** Every key of the loaded dictionary was stored by an event of the
    walk, whether the walk came to its end or not. *)
Lemma loaded_keys_events `{PyRuntime} (path : pystr) (tree : entry)
  (k : pystr) :
  In k (keys (files (self (loaded path tree)))) ->
  exists c, In (Stored k c) (walk_collect file_event path tree).
Proof.
  intros Hk.
  unfold loaded, _load_codebase, bind, get_self in Hk.
  rewrite load_walk_events in Hk.
  destruct (run_events_prefix
              (walk_collect file_event
                 (codebase_path (self (new_world path))) tree)
              (new_world path)) as (pre & post & E & Hs).
  rewrite Hs in Hk. simpl in Hk.
  rewrite store_all_files in Hk. apply stored_keys_origin in Hk.
  destruct Hk as [[]|Hk].
  apply in_map_iff in Hk. destruct Hk as ([k' c] & <- & Hin).
  exists c. simpl in E. rewrite E. apply in_or_app. left.
  now apply stored_files_In.
Qed.

Lemma loaded_keys_classified `{PyRuntime} (path : pystr) (tree : entry)
  (k : pystr) :
  In k (keys (files (self (loaded path tree)))) -> _is_text_file k = true.
Proof.
  intros Hk. apply loaded_keys_events in Hk. destruct Hk as (c & Hin).
  assert (Hall : Forall (fun ev => match ev with
                                   | Stored p _ => _is_text_file p = true
                                   | Warned _ => True
                                   end)
                   (walk_collect file_event path tree)).
  { apply walk_collect_Forall. intros root e.
    destruct e as [name st|name sub]; simpl; [|constructor].
    destruct (_is_text_file (path_join root name)) eqn:Ht; [|constructor].
    destruct st as [content|msg|size msg].
    - destruct (len content =? 0)%Z; repeat constructor. exact Ht.
    - repeat constructor.
    - destruct (size =? 0)%Z; repeat constructor. }
  rewrite Forall_forall in Hall. exact (Hall _ Hin).
Qed.

(** X5: every path of the loaded dictionary is one that
    [_is_text_file] accepts. *)
Theorem loaded_paths_are_text_files `{PyRuntime} (path : pystr)
  (tree : entry) :
  Forall (fun k => _is_text_file k = true)
    (keys (files (self (loaded path tree)))).
Proof.
  apply Forall_forall. intros k Hk. eapply loaded_keys_classified; eassumption.
Qed.

Lemma walk_collect_prune (A : Type) (f : pystr -> entry -> list A) :
  (forall root d s s', f root (EDir d s) = f root (EDir d s')) ->
  forall e root, walk_collect f root (prune e) = walk_collect f root e.
Proof.
  intros Hf. induction e as [name st|name children IH] using entry_tree_ind;
    intros root; [reflexivity|].
  cbn [prune walk_collect]. f_equal.
  - clear IH. induction children as [|c rest IHc]; [reflexivity|].
    cbn [map flat_map]. rewrite IHc. f_equal.
    destruct c as [fname st|d sub]; [reflexivity|].
    destruct (_should_skip_directory d); [apply Hf|].
    cbn [prune]. apply Hf.
  - induction IH as [|c rest Hc _ IHrest]; [reflexivity|].
    cbn [map]. destruct c as [fname st|d sub]; [exact IHrest|].
    destruct (_should_skip_directory d) eqn:Hskip.
    + rewrite Hskip, IHrest. reflexivity.
    + specialize (Hc (path_join root d)). cbn [prune] in Hc |- *.
      rewrite Hskip, Hc, IHrest. reflexivity.
Qed.

(** X6: what lies inside a sub-directory with a skipped name, at any
    depth below the directory the walk starts from, has no effect on
    loading: the outcome, the object and what is printed are those of
    the tree in which every such sub-directory is empty.  The name of
    the directory the walk starts from plays no part: it is walked even
    when [_should_skip_directory] accepts its name. *)
Theorem skipped_directory_is_not_entered `{PyRuntime} (root : pystr)
  (e : entry) (w : world) :
  load_walk root e w = load_walk root (prune e) w
  /\ (forall name name' children,
        e = EDir name children ->
        load_walk root e w = load_walk root (EDir name' children) w)
  /\ (forall name d sub pre post,
        e = EDir name (pre ++ EDir d sub :: post) ->
        _should_skip_directory d = true ->
        forall sub',
          load_walk root e w
          = load_walk root (EDir name (pre ++ EDir d sub' :: post)) w).
Proof.
  split; [|split].
  - rewrite !load_walk_events.
    now rewrite walk_collect_prune by reflexivity.
  - intros name name' children ->. reflexivity.
  - intros name d sub pre post -> Hskip sub'.
    rewrite !load_walk_events. f_equal.
    rewrite <- (walk_collect_prune file_event)
      with (e := EDir name (pre ++ EDir d sub :: post)) by reflexivity.
    rewrite <- (walk_collect_prune file_event)
      with (e := EDir name (pre ++ EDir d sub' :: post)) by reflexivity.
    cbn [prune]. rewrite !map_app. cbn [map]. rewrite Hskip. reflexivity.
Qed.

Example prune_at_depth :
  prune
    (EDir (of_string "build")
       [ EDir (of_string "src")
           [ EDir (of_string ".git")
               [ EFile (of_string "config.json")
                   (Regular (text ["{}"]%string)) ];
             EFile (of_string "a.py") (Regular (text ["x"]%string)) ];
         EDir (of_string "dist")
           [ EDir (of_string "src")
               [ EFile (of_string "b.py") (Regular (text ["y"]%string)) ] ] ])
  = EDir (of_string "build")
      [ EDir (of_string "src")
          [ EDir (of_string ".git") [];
            EFile (of_string "a.py") (Regular (text ["x"]%string)) ];
        EDir (of_string "dist") [] ].
Proof. vm_compute. reflexivity. Qed.

Lemma startswith_app (a b : pystr) : startswith a (a ++ b) = true.
Proof.
  induction a as [|x a IH]; simpl; [reflexivity|].
  now rewrite N.eqb_refl, IH.
Qed.

Lemma startswith_trans (a b c : pystr) :
  startswith a b = true -> startswith b c = true -> startswith a c = true.
Proof.
  revert b c. induction a as [|x a IH]; intros b c Hab Hbc; [reflexivity|].
  destruct b as [|y b]; [discriminate|]. destruct c as [|z c]; [discriminate|].
  simpl in *. apply andb_true_iff in Hab, Hbc.
  destruct Hab as [Exy Hab]. destruct Hbc as [Eyz Hbc].
  apply N.eqb_eq in Exy, Eyz. subst.
  rewrite N.eqb_refl. simpl. eapply IH; eassumption.
Qed.

(** A joined path starts with the directory it was joined to. *)
Lemma path_join_prefix (a b : pystr) :
  startswith [SLASH] b = false -> startswith a (path_join a b) = true.
Proof.
  intros Hb. unfold path_join. rewrite Hb.
  destruct (pystr_eqb a [] || endswith [SLASH] a); apply startswith_app.
Qed.

Lemma events_under_root `{PyRuntime} (e : entry) :
  names_ok e = true ->
  forall root,
    Forall (fun ev => match ev with
                      | Stored p _ => startswith root p = true
                      | Warned _ => True
                      end)
      (walk_collect file_event root e).
Proof.
  induction e as [name st|name children IH] using entry_tree_ind;
    intros Hok root; simpl; [constructor|].
  simpl in Hok. apply andb_true_iff in Hok. destruct Hok as [_ Hok].
  rewrite forallb_forall in Hok. apply Forall_app. split.
  - apply Forall_forall. intros x Hx. apply in_flat_map in Hx.
    destruct Hx as (c & Hc & Hx). specialize (Hok c Hc).
    destruct c as [fname st|dname sub]; simpl in Hx; [|contradiction].
    destruct x as [p content|l]; [|exact I].
    destruct (_is_text_file (path_join root fname)); [|contradiction].
    destruct st as [content'|msg|size msg].
    + destruct (len content' =? 0)%Z; [contradiction|].
      destruct Hx as [E|[]]. inversion E; subst.
      apply path_join_prefix. simpl in Hok. now apply negb_true_iff in Hok.
    + destruct Hx as [E|[]]. discriminate.
    + destruct (size =? 0)%Z; [contradiction|].
      destruct Hx as [E|[]]. discriminate.
  - assert (Hall : Forall (fun c => names_ok c = true) children)
      by (apply Forall_forall; exact Hok).
    clear Hok. induction IH as [|c rest Hc _ IHrest]; [constructor|].
    inversion Hall as [|? ? Hcok Hrest]; subst.
    destruct c as [fname st|dirname sub]; [now apply IHrest|].
    apply Forall_app. split; [|now apply IHrest].
    destruct (_should_skip_directory dirname); [constructor|].
    specialize (Hc Hcok (path_join root dirname)).
    eapply Forall_impl; [|exact Hc].
    intros [p content|l] Hit; [|exact I].
    eapply startswith_trans; [|exact Hit].
    apply path_join_prefix. simpl in Hcok.
    apply andb_true_iff in Hcok. destruct Hcok as [Hn _].
    now apply negb_true_iff in Hn.
Qed.

(** X7: when no name of the tree starts with a slash, as no name of a
    directory entry does, every path of the loaded dictionary starts
    with [codebase_path]. *)
Theorem loaded_paths_start_with_root `{PyRuntime} (path : pystr)
  (tree : entry) :
  names_ok tree = true ->
  Forall (fun k => startswith path k = true)
    (keys (files (self (loaded path tree)))).
Proof.
  intros Hok. apply Forall_forall. intros k Hk.
  apply loaded_keys_events in Hk. destruct Hk as (c & Hin).
  pose proof (events_under_root tree Hok path) as Hall.
  rewrite Forall_forall in Hall. exact (Hall _ Hin).
Qed.

Lemma loaded_paths_start_with_root_witness :
  Forall (fun k => startswith (of_string "/repo") k = true)
    (keys (files (self (@loaded rt (of_string "/repo") demo_tree)))).
Proof.
  apply (@loaded_paths_start_with_root rt).
  vm_compute. reflexivity.
Defined.

(** * More about searching *)

Lemma filter_same_path (g : pystr -> bool) (fp : pystr) (l : list hit) :
  Forall (fun h => hit_path h = fp) l ->
  filter (fun h => g (hit_path h)) l = if g fp then l else [].
Proof.
  induction 1 as [|h l Hh _ IH]; simpl; [now destruct (g fp)|].
  rewrite Hh, IH. now destruct (g fp).
Qed.

Lemma all_hits_cons `{PyRuntime} (r : regex) (pf : option pystr)
  (fp : pystr) (c : bytes) (rest : list (pystr * bytes)) :
  all_hits r pf ((fp, c) :: rest)
  = (if filtered_out pf fp then []
     else file_hits r fp (split_on is_LF c) 1)
    ++ all_hits r pf rest.
Proof. reflexivity. Qed.

(** The results under a path filter are the results without filter
    whose path passes it. *)
Lemma all_hits_filter `{PyRuntime} (r : regex) (pf : option pystr)
  (items : list (pystr * bytes)) :
  all_hits r pf items
  = filter (fun h => negb (filtered_out pf (hit_path h)))
      (all_hits r None items).
Proof.
  induction items as [|[fp c] rest IH]; [reflexivity|].
  rewrite !all_hits_cons, filter_app, <- IH. f_equal.
  change (filtered_out None fp) with false. cbv iota.
  rewrite filter_same_path with (fp := fp)
                                (g := fun p => negb (filtered_out pf p)).
  - now destruct (filtered_out pf fp).
  - apply Forall_forall. intros h Hh. eapply file_hits_path; eassumption.
Qed.

(** X8: a search with a path filter returns the first [max_results] of
    the unfiltered results whose path contains the filter; every
    returned path contains a non-empty filter, and an empty filter
    string filters nothing. *)
Theorem grep_path_filter `{PyRuntime} (pattern : pystr)
  (pf : option pystr) (m : Z) (cs : bool) (w : world) (r : regex) :
  compile_pattern pattern cs = Compiled r ->
  returned (grep pattern pf m cs w)
  = Some (firstn (Z.to_nat m)
            (filter (fun h => negb (filtered_out pf (hit_path h)))
               (all_hits r None (files (self w)))))
  /\ (forall f res h,
        pf = Some f -> f <> [] ->
        returned (grep pattern pf m cs w) = Some res ->
        In h res -> contains f (hit_path h) = true)
  /\ returned (grep pattern (Some []) m cs w)
     = returned (grep pattern None m cs w).
Proof.
  intros Hc.
  assert (E : forall pf', returned (grep pattern pf' m cs w)
              = Some (firstn (Z.to_nat m)
                        (filter (fun h => negb (filtered_out pf' (hit_path h)))
                           (all_hits r None (files (self w)))))).
  { intros pf'. rewrite (@grep_compiled _ pattern pf' m cs w r Hc).
    unfold returned. simpl. now rewrite all_hits_filter. }
  split; [apply E|]. split.
  - intros f res h -> Hf Hres Hin. rewrite E in Hres.
    inversion Hres; subst res. apply In_firstn in Hin.
    apply filter_In in Hin. destruct Hin as [_ Hkeep].
    simpl in Hkeep. apply pystr_eqb_neq in Hf. rewrite Hf in Hkeep.
    simpl in Hkeep. now rewrite negb_involutive in Hkeep.
  - rewrite !E. reflexivity.
Qed.

Lemma grep_path_filter_witness :
  returned (@grep rt (of_string "o") (Some (of_string "/a/")) 100 true
              demo_world)
  = Some (firstn (Z.to_nat 100)
            (filter
               (fun h => negb (filtered_out (Some (of_string "/a/"))
                                 (hit_path h)))
               (@all_hits rt (letter_regex 111 true) None
                  (files (self demo_world)))))
  /\ (forall f res h,
        Some (of_string "/a/") = Some f -> f <> [] ->
        returned (@grep rt (of_string "o") (Some (of_string "/a/")) 100 true
                    demo_world) = Some res ->
        In h res -> contains f (hit_path h) = true)
  /\ returned (@grep rt (of_string "o") (Some []) 100 true demo_world)
     = returned (@grep rt (of_string "o") None 100 true demo_world).
Proof.
  apply (@grep_path_filter rt (of_string "o") (Some (of_string "/a/")) 100
           true demo_world (letter_regex 111 true)).
  vm_compute. reflexivity.
Defined.

(** X9: raising [max_results] only adds results at the end.  Whether
    [grep] returns does not depend on the bound; when it returns, the
    list returned under a bound is the beginning of the list returned
    under any larger bound; and it returns whenever the pattern
    compiles. *)
Theorem grep_prefix_of_larger_bound `{PyRuntime} (pattern : pystr)
  (pf : option pystr) (cs : bool) (w : world) (m m' : Z) :
  (m <= m')%Z ->
  returned (grep pattern pf m cs w)
  = option_map (firstn (Z.to_nat m)) (returned (grep pattern pf m' cs w))
  /\ (forall r,
        compile_pattern pattern cs = Compiled r ->
        exists res res',
          returned (grep pattern pf m cs w) = Some res
          /\ returned (grep pattern pf m' cs w) = Some res'
          /\ res = firstn (Z.to_nat m) res').
Proof.
  intros Hle. split.
  - destruct (compile_pattern pattern cs) as [r|e|e] eqn:E.
    + rewrite (@grep_compiled _ pattern pf m cs w r E).
      rewrite (@grep_compiled _ pattern pf m' cs w r E).
      unfold returned. simpl. rewrite firstn_firstn. do 2 f_equal. lia.
    + rewrite (@grep_error _ pattern pf m cs w e E).
      rewrite (@grep_error _ pattern pf m' cs w e E).
      destruct (stdout_error (invalid_pattern_line pattern e));
        unfold returned; simpl; [reflexivity | now rewrite firstn_nil].
    + rewrite (@grep_raised _ pattern pf m cs w e E).
      rewrite (@grep_raised _ pattern pf m' cs w e E). reflexivity.
  - intros r E.
    rewrite (@grep_compiled _ pattern pf m cs w r E).
    rewrite (@grep_compiled _ pattern pf m' cs w r E).
    eexists. eexists. split; [reflexivity|]. split; [reflexivity|].
    rewrite firstn_firstn. f_equal. lia.
Qed.

Lemma grep_prefix_of_larger_bound_witness :
  returned (@grep rt (of_string "o") None 2 true demo_world)
  = option_map (firstn (Z.to_nat 2))
      (returned (@grep rt (of_string "o") None 100 true demo_world))
  /\ (forall r,
        @compile_pattern rt (of_string "o") true = Compiled r ->
        exists res res',
          returned (@grep rt (of_string "o") None 2 true demo_world)
          = Some res
          /\ returned (@grep rt (of_string "o") None 100 true demo_world)
             = Some res'
          /\ res = firstn (Z.to_nat 2) res').
Proof.
  apply (@grep_prefix_of_larger_bound rt). lia.
Defined.

(** X10: the number of results is the smaller of [max_results] (zero
    when it is negative) and the number of matching lines in the files
    that pass the filter; so a corpus with at least [max_results]
    matches gives exactly [max_results] results. *)
Theorem grep_result_count `{PyRuntime} (pattern : pystr)
  (pf : option pystr) (m : Z) (cs : bool) (w : world) (r : regex) :
  compile_pattern pattern cs = Compiled r ->
  exists res,
    returned (grep pattern pf m cs w) = Some res
    /\ len res = Z.min (Z.max m 0) (len (all_hits r pf (files (self w)))).
Proof.
  intros Hc. rewrite (@grep_compiled _ pattern pf m cs w r Hc).
  eexists. split; [reflexivity|].
  unfold len. rewrite length_firstn. lia.
Qed.

Lemma grep_result_count_witness :
  exists res,
    returned (@grep rt (of_string "o") None 2 true demo_world) = Some res
    /\ len res
       = Z.min (Z.max 2 0)
           (len (@all_hits rt (letter_regex 111 true) None
                   (files (self demo_world)))).
Proof.
  apply (@grep_result_count rt (of_string "o") None 2 true demo_world
           (letter_regex 111 true)).
  vm_compute. reflexivity.
Defined.

Lemma utf8_replace_ascii (s : list N) :
  Forall (fun b => (b < 128)%N) s -> utf8_replace s = s.
Proof.
  induction 1 as [|b s Hb _ IH]; [reflexivity|].
  simpl. apply N.ltb_lt in Hb. now rewrite Hb, IH.
Qed.

Lemma rstrip_nothing (chars s : pystr) :
  (forall t c, s = t ++ [c] -> ~ In c chars) -> rstrip chars s = s.
Proof.
  intros Hlast. unfold rstrip.
  destruct (rev s) as [|c t] eqn:E; simpl.
  - rewrite <- (rev_involutive s), E. reflexivity.
  - assert (Es : s = rev t ++ [c]).
    { rewrite <- (rev_involutive s), E. reflexivity. }
    destruct (existsb (N.eqb c) chars) eqn:Ec.
    + exfalso. apply (Hlast _ _ Es).
      apply existsb_exists in Ec. destruct Ec as (x & Hx & Ex).
      apply N.eqb_eq in Ex. now subst.
    + simpl. now rewrite Es.
Qed.

(** X11: a line made of ASCII bytes is reported as it stands, byte for
    character, without its trailing carriage returns; when it does not
    end in a carriage return the text is the whole line. *)
Theorem grep_ascii_line_verbatim `{PyRuntime} (pattern : pystr)
  (pf : option pystr) (m : Z) (cs : bool) (w : world) (r : regex)
  (res : list hit) (path : pystr) (L : Z) (txt : pystr) :
  compile_pattern pattern cs = Compiled r ->
  returned (grep pattern pf m cs w) = Some res ->
  In (path, L, txt) res ->
  exists content line,
    In (path, content) (files (self w))
    /\ line_at content L = Some line
    /\ (Forall (fun b => (N_of_ascii b < 128)%N) line ->
        txt = rstrip [CR; LF] (map N_of_ascii line)
        /\ ((forall t, line <> t ++ [ascii_of_N CR]) ->
            txt = map N_of_ascii line)).
Proof.
  intros Hc Hres Hin.
  rewrite (@grep_compiled _ pattern pf m cs w r Hc) in Hres.
  inversion Hres; subst res. apply In_firstn in Hin.
  apply all_hits_In in Hin. simpl in Hin.
  destruct Hin as (content & Hfile & _ & Hfh).
  apply file_hits_In in Hfh. destruct Hfh as (_ & Hle & line & E & Hs & Htxt).
  exists content, line. split; [assumption|]. split.
  { unfold line_at. destruct (Z.leb_spec 1 L); [assumption | lia]. }
  intros Hascii.
  assert (Hdec : decode_replace line = map N_of_ascii line).
  { unfold decode_replace. apply utf8_replace_ascii.
    now apply Forall_map. }
  rewrite Hdec in Htxt. split; [assumption|].
  intros Hlast. rewrite Htxt. apply rstrip_nothing.
  intros t c Et [<-|[<-|[]]].
  - (* the line would end in a carriage return *)
    assert (Hrev : rev (map N_of_ascii line) = CR :: rev t)
      by (rewrite Et, rev_app_distr; reflexivity).
    rewrite <- map_rev in Hrev.
    destruct (rev line) as [|a l'] eqn:El; [discriminate|].
    simpl in Hrev. injection Hrev as Ea _.
    apply (Hlast (rev l')).
    rewrite <- (rev_involutive line), El. simpl. f_equal. f_equal.
    rewrite <- (ascii_N_embedding a), Ea. reflexivity.
  - (* the line would hold a newline *)
    assert (Hline : Forall (fun b => is_LF b = false) line).
    { pose proof (split_on_pieces is_LF content) as Hp.
      rewrite Forall_forall in Hp. apply Hp. eapply nth_error_In; eassumption. }
    pose proof (decode_replace_no_LF Hline) as Hno.
    rewrite Hdec, Et in Hno. apply Forall_app in Hno.
    destruct Hno as [_ Hno]. inversion Hno; subst. congruence.
Qed.

Lemma grep_ascii_line_verbatim_witness :
  exists content line,
    In (of_string "/repo/z.txt", content) (files (self demo_world))
    /\ line_at content 1 = Some line
    /\ (Forall (fun b => (N_of_ascii b < 128)%N) line ->
        of_string "Hello World" = rstrip [CR; LF] (map N_of_ascii line)
        /\ ((forall t, line <> t ++ [ascii_of_N CR]) ->
            of_string "Hello World" = map N_of_ascii line)).
Proof.
  apply (@grep_ascii_line_verbatim rt (of_string "Hello") None 100 true
           demo_world hello_regex
           [(of_string "/repo/z.txt", 1%Z, of_string "Hello World")]).
  - vm_compute. reflexivity.
  - vm_compute. reflexivity.
  - left. reflexivity.
Defined.

(** * More about mapping one file *)

Lemma dict_set_In_key (V : Type) (k : pystr) (v : V) (d : list (pystr * V)) :
  In (k, v) (dict_set k v d).
Proof.
  induction d as [|[k' v'] d IH]; simpl; [now left|].
  destruct (pystr_eqb k k') eqn:E; [|now right].
  apply pystr_eqb_eq in E. subst. now left.
Qed.

Lemma dict_set_In_other (V : Type) (k k0 : pystr) (v v0 : V)
  (d : list (pystr * V)) :
  k0 <> k -> (In (k0, v0) (dict_set k v d) <-> In (k0, v0) d).
Proof.
  intros Hne. induction d as [|[k' v'] d IH]; simpl.
  - split; [intros [E|[]]; inversion E; congruence | contradiction].
  - destruct (pystr_eqb k k') eqn:E; simpl.
    + apply pystr_eqb_eq in E. subst k'.
      split; intros [E'|Hin]; try (inversion E'; congruence); now right.
    + rewrite IH. reflexivity.
Qed.

(** X12: [_mmap_file] on a readable, non-empty file returns and makes
    the path map to the content and to its length, replacing what the
    path mapped to before and leaving the other paths and the output
    alone; a file whose size cannot be read, or that has a size and
    cannot be mapped, raises and changes nothing. *)
Theorem mmap_file_outcomes (filepath : pystr) (w : world) :
  (forall content,
      content <> [] ->
      exists w',
        _mmap_file filepath (Regular content) w = (Return tt, w')
        /\ stdout w' = stdout w
        /\ In (filepath, content) (files (self w'))
        /\ In (filepath, len content) (file_sizes (self w'))
        /\ (forall k v, k <> filepath ->
              (In (k, v) (files (self w')) <-> In (k, v) (files (self w))))
        /\ (NoDup (keys (files (self w))) ->
            NoDup (keys (files (self w')))
            /\ forall v, In (filepath, v) (files (self w')) -> v = content))
  /\ (forall msg, _mmap_file filepath (StatError msg) w = (Raise msg, w))
  /\ (forall size msg,
        size <> 0%Z ->
        _mmap_file filepath (MapError size msg) w
        = (Raise (of_string "Cannot mmap: " ++ msg), w)).
Proof.
  split; [|split].
  - intros content Hne.
    assert (Hlen : (len content =? 0)%Z = false).
    { apply Z.eqb_neq. unfold len. destruct content; [congruence|].
      simpl. lia. }
    unfold _mmap_file. rewrite Hlen.
    unfold bind, get_self, set_self. simpl.
    eexists. split; [reflexivity|]. simpl.
    split; [reflexivity|]. split; [apply dict_set_In_key|].
    split; [apply dict_set_In_key|]. split.
    + intros k v Hk. now apply dict_set_In_other.
    + intros Hnd.
      pose proof (dict_set_NoDup filepath content (files (self w)) Hnd) as Hnd'.
      split; [assumption|]. intros v Hv.
      eapply dict_value_unique; [exact Hnd' | exact Hv |].
      apply dict_set_In_key.
  - reflexivity.
  - intros size msg Hs. unfold _mmap_file.
    destruct (Z.eqb_spec size 0); [contradiction | reflexivity].
Qed.

(** * More about the classifier *)

Lemma split_one_piece (name : pystr) :
  ~ In SLASH name -> split_on (N.eqb SLASH) name = [name].
Proof.
  intros Hno. apply split_on_no_sep. apply Forall_forall.
  intros x Hx. apply N.eqb_neq. intros <-. contradiction.
Qed.

Lemma path_name_plain (name : pystr) :
  ~ In SLASH name -> name <> [] -> name <> [DOT] -> path_name name = name.
Proof.
  intros Hno Hne Hdot. unfold path_name, path_parts.
  rewrite split_one_piece by assumption. simpl.
  apply pystr_eqb_neq in Hne, Hdot. now rewrite Hne, Hdot.
Qed.

Lemma path_name_after_slash (dir name : pystr) :
  ~ In SLASH name -> name <> [] -> name <> [DOT] ->
  path_name (dir ++ SLASH :: name) = name.
Proof.
  intros Hno Hne Hdot. unfold path_name, path_parts.
  rewrite split_on_app_sep by apply N.eqb_refl.
  rewrite (@split_one_piece name Hno).
  rewrite filter_app. simpl.
  apply pystr_eqb_neq in Hne, Hdot. rewrite Hne, Hdot. simpl.
  apply last_last.
Qed.

Lemma endswith_slash (a : pystr) :
  endswith [SLASH] a = true -> exists a', a = a' ++ [SLASH].
Proof.
  unfold endswith. change (rev [SLASH]) with [SLASH].
  destruct (rev a) as [|x t] eqn:E; cbn [startswith]; intros Hend;
    [discriminate|].
  apply andb_true_iff in Hend. destruct Hend as [Hend _].
  apply N.eqb_eq in Hend. subst x. exists (rev t).
  rewrite <- (rev_involutive a), E. reflexivity.
Qed.

(** The name of a joined path is the name that was joined. *)
Lemma path_name_join (dir name : pystr) :
  ~ In SLASH name -> name <> [] -> name <> [DOT] ->
  path_name (path_join dir name) = name.
Proof.
  intros Hno Hne Hdot. unfold path_join.
  assert (Hs : startswith [SLASH] name = false).
  { destruct name as [|x t]; [reflexivity|]. cbn [startswith].
    rewrite andb_true_r. apply N.eqb_neq. intros <-. apply Hno. now left. }
  rewrite Hs.
  destruct (pystr_eqb dir []) eqn:Ed; simpl.
  - apply pystr_eqb_eq in Ed. subst dir. simpl. now apply path_name_plain.
  - destruct (endswith [SLASH] dir) eqn:Ee.
    + apply endswith_slash in Ee. destruct Ee as [a' ->].
      rewrite <- app_assoc. simpl. now apply path_name_after_slash.
    + now apply path_name_after_slash.
Qed.

Lemma is_text_file_by_name `{PyRuntime} (p q : pystr) :
  path_name p = path_name q -> _is_text_file p = _is_text_file q.
Proof.
  intros E. unfold _is_text_file, path_suffix. now rewrite E.
Qed.

(** X13: whether a directory entry is a text file depends on its name
    alone, not on the directory it lies in. *)
Theorem is_text_file_ignores_directory `{PyRuntime} (dir name : pystr) :
  ~ In SLASH name -> name <> [] -> name <> [DOT] ->
  _is_text_file (path_join dir name) = _is_text_file name.
Proof.
  intros Hno Hne Hdot. apply is_text_file_by_name.
  rewrite path_name_join by assumption.
  symmetry. now apply path_name_plain.
Qed.

Lemma is_text_file_ignores_directory_witness :
  @_is_text_file rt (path_join (of_string "/repo/node_modules")
                       (of_string "Index.JS"))
  = @_is_text_file rt (of_string "Index.JS").
Proof.
  apply (@is_text_file_ignores_directory rt).
  - vm_compute. intuition discriminate.
  - discriminate.
  - discriminate.
Defined.

Lemma rfind_go_last (c : N) (s : pystr) :
  forall i acc, rfind_go c (s ++ [c]) i acc = (i + len s)%Z.
Proof.
  induction s as [|x s IH]; intros i acc; cbn [app rfind_go].
  - rewrite N.eqb_refl. unfold len. cbn [List.length]. lia.
  - rewrite IH. unfold len. cbn [List.length]. lia.
Qed.

(** A name that holds a dot and has no suffix is not a text file. *)
Lemma dotted_name_without_suffix `{PyRuntime} (p : pystr) :
  In DOT (path_name p) -> path_suffix p = [] -> _is_text_file p = false.
Proof.
  intros Hdot Hsuf. unfold _is_text_file. rewrite Hsuf.
  change (str_in (str_lower []) text_extensions) with false. cbv iota.
  destruct (str_in (str_lower (path_name p)) text_filenames) eqn:E;
    [|reflexivity].
  apply str_in_In in E. exfalso.
  apply (text_filenames_no_dot E). unfold str_lower.
  now apply lower_go_keeps_dot.
Qed.

(** X14: a name whose only dot comes first (a hidden file such as
    [.env] or [.gitignore]) and a name that ends in a dot are never
    text files, in whatever directory: [pathlib] gives them no suffix,
    and no listed file name holds a dot. *)
Theorem dot_names_are_not_text `{PyRuntime} (dir s : pystr) :
  s <> [] -> ~ In SLASH s ->
  (~ In DOT s -> _is_text_file (path_join dir (DOT :: s)) = false)
  /\ _is_text_file (path_join dir (s ++ [DOT])) = false.
Proof.
  intros Hne Hslash. split.
  - intros Hdot.
    assert (Hname : path_name (path_join dir (DOT :: s)) = DOT :: s).
    { apply path_name_join.
      - intros [E|Hin]; [discriminate E | contradiction].
      - discriminate.
      - intros E. inversion E. contradiction. }
    apply dotted_name_without_suffix.
    + rewrite Hname. now left.
    + unfold path_suffix. rewrite Hname. unfold rfind. simpl.
      rewrite rfind_go_absent by assumption. reflexivity.
  - assert (Hname : path_name (path_join dir (s ++ [DOT])) = s ++ [DOT]).
    { apply path_name_join.
      - intros Hin. apply in_app_or in Hin.
        destruct Hin as [Hin|[E|[]]]; [contradiction | discriminate E].
      - destruct s; discriminate.
      - destruct s as [|x [|y t]]; [contradiction | discriminate..]. }
    apply dotted_name_without_suffix.
    + rewrite Hname. apply in_or_app. right. now left.
    + unfold path_suffix. rewrite Hname. unfold rfind.
      rewrite rfind_go_last.
      assert (El : len (s ++ [DOT]) = (len s + 1)%Z).
      { unfold len. rewrite length_app. simpl. lia. }
      rewrite El.
      destruct (Z.ltb_spec (0 + len s) (len s + 1 - 1)); [lia|].
      now rewrite andb_false_r.
Qed.

Lemma dot_names_are_not_text_witness :
  (~ In DOT (of_string "env") ->
   @_is_text_file rt (path_join (of_string "/repo") (DOT :: of_string "env"))
   = false)
  /\ @_is_text_file rt (path_join (of_string "/repo")
                          (of_string "env" ++ [DOT])) = false.
Proof.
  apply (@dot_names_are_not_text rt).
  - discriminate.
  - vm_compute. intuition discriminate.
Defined.

(** * Searching with a bound that is not positive, and on a loaded
      object *)

(** X15: with [max_results] zero or negative nothing is scanned: a
    list [grep] returns is empty and a string [grep_formatted] returns
    says that no match was found, whatever the corpus holds; and both
    do return when the pattern compiles. *)
Theorem grep_without_room `{PyRuntime} (pattern : pystr)
  (pf : option pystr) (m : Z) (cs : bool) (w : world) :
  (m <= 0)%Z ->
  (forall res, returned (grep pattern pf m cs w) = Some res -> res = [])
  /\ (forall s,
        returned (grep_formatted pattern pf m w) = Some s ->
        s = no_matches pattern)
  /\ (forall r,
        compile_pattern pattern cs = Compiled r ->
        returned (grep pattern pf m cs w) = Some [])
  /\ (forall r,
        compile_pattern pattern true = Compiled r ->
        returned (grep_formatted pattern pf m w)
        = Some (no_matches pattern)).
Proof.
  intros Hm.
  assert (E0 : Z.to_nat m = 0%nat) by lia.
  assert (A : forall cs' res,
             returned (grep pattern pf m cs' w) = Some res -> res = []).
  { intros cs' res Hres. apply grep_returned_cases in Hres.
    destruct Hres as [(r & _ & ->)|[_ ->]]; [|reflexivity].
    now rewrite E0. }
  assert (B : forall cs' r,
             compile_pattern pattern cs' = Compiled r ->
             returned (grep pattern pf m cs' w) = Some []).
  { intros cs' r Ec. rewrite (@grep_compiled _ pattern pf m cs' w r Ec).
    now rewrite E0. }
  split; [apply A|]. split; [|split; [apply B|]].
  - intros s Hs. rewrite grep_formatted_returned in Hs.
    destruct (returned (grep pattern pf m true w)) as [res|] eqn:Eg;
      [|discriminate].
    apply A in Eg. subst res. simpl in Hs. now inversion Hs.
  - intros r Ec. rewrite grep_formatted_returned, (B true r Ec).
    reflexivity.
Qed.

Lemma grep_without_room_witness :
  (forall res,
      returned (@grep rt (of_string "Hello") None 0 true demo_world)
      = Some res -> res = [])
  /\ (forall s,
        returned (@grep_formatted rt (of_string "Hello") None 0 demo_world)
        = Some s -> s = no_matches (of_string "Hello"))
  /\ (forall r,
        @compile_pattern rt (of_string "Hello") true = Compiled r ->
        returned (@grep rt (of_string "Hello") None 0 true demo_world)
        = Some [])
  /\ (forall r,
        @compile_pattern rt (of_string "Hello") true = Compiled r ->
        returned (@grep_formatted rt (of_string "Hello") None 0 demo_world)
        = Some (no_matches (of_string "Hello"))).
Proof.
  apply (@grep_without_room rt). lia.
Defined.

(** X16: on an object filled by the loading walk, every result of a
    search names a path of the dictionary, and that path is one
    [_is_text_file] accepts. *)
Theorem grep_reports_loaded_text_files `{PyRuntime} (path : pystr)
  (tree : entry) (pattern : pystr) (pf : option pystr) (m : Z) (cs : bool)
  (res : list hit) (h : hit) :
  returned (grep pattern pf m cs (loaded path tree)) = Some res ->
  In h res ->
  In (hit_path h) (keys (files (self (loaded path tree))))
  /\ _is_text_file (hit_path h) = true.
Proof.
  intros Hres Hin.
  assert (Hkey : In (hit_path h) (keys (files (self (loaded path tree))))).
  { apply grep_returned_cases in Hres.
    destruct Hres as [(r & _ & ->)|[_ ->]]; [|contradiction].
    apply In_firstn in Hin. eapply all_hits_paths; eassumption. }
  split; [assumption|]. eapply loaded_keys_classified; eassumption.
Qed.

Lemma grep_reports_loaded_text_files_witness :
  In (hit_path (of_string "/repo/z.txt", 1%Z, of_string "Hello World"))
     (keys (files (self (@loaded rt (of_string "/repo") demo_tree))))
  /\ @_is_text_file rt
       (hit_path (of_string "/repo/z.txt", 1%Z, of_string "Hello World"))
     = true.
Proof.
  apply (@grep_reports_loaded_text_files rt (of_string "/repo") demo_tree
           (of_string "Hello") None 100 true
           [(of_string "/repo/z.txt", 1%Z, of_string "Hello World")]).
  - vm_compute. reflexivity.
  - left. reflexivity.
Defined.
